(** * Product Pic Studio: the export compositor and the preview of
    [src/app/page.tsx]

    A shallow embedding of the page component's rendering code: the scene
    catalog [sceneBackgrounds], the preview descriptors [filterValue],
    [backgroundStyle] and [previewBackground], the canvas helpers
    [drawRoundedRect] and [wrapText], and the export handler
    [handleDownload].

    Conventions of the model.
    - A JavaScript number is a [jsnum]: an exact rational kept in lowest
      terms, or one of [PInf], [NInf], [NaN].  IEEE rounding and the sign of
      zero are not modelled.
    - A JavaScript string is a [string]; [toUpperCase] maps the ASCII
      letters only.
    - The 2D context is a record holding the current font, the stack of
      fonts saved by [save()], and the sequence of calls and property
      assignments made so far; canvas code runs in a state monad over it.
    - What the browser decides (font metrics, number printing, image
      decoding, context creation, PNG encoding) is a field of [Browser]. *)

From Stdlib Require Import List String Ascii Bool ZArith QArith Qround Qminmax Lia Lqa Permutation Sorted DecimalString Morphisms.
Import ListNotations.

Local Open Scope string_scope.
Local Open Scope Q_scope.
Local Open Scope list_scope.

(* ================================================================= *)
(** ** JavaScript numbers *)

Module JS.

Inductive jsnum : Type :=
| Num (q : Q)
| PInf
| NInf
| NaN.

Definition Qltb (a b : Q) : bool := negb (Qle_bool b a).

(** Finite results are stored reduced, so that equal values are equal terms. *)
Definition num (q : Q) : jsnum := Num (Qred q).

Definition of_Z (z : Z) : jsnum := Num (inject_Z z).
Definition of_nat (n : nat) : jsnum := of_Z (Z.of_nat n).

Definition add (a b : jsnum) : jsnum :=
  match a, b with
  | NaN, _ | _, NaN => NaN
  | Num x, Num y => num (x + y)
  | PInf, NInf | NInf, PInf => NaN
  | PInf, _ | _, PInf => PInf
  | NInf, _ | _, NInf => NInf
  end.

Definition sub (a b : jsnum) : jsnum :=
  match a, b with
  | NaN, _ | _, NaN => NaN
  | Num x, Num y => num (x - y)
  | PInf, PInf | NInf, NInf => NaN
  | PInf, _ | _, NInf => PInf
  | NInf, _ | _, PInf => NInf
  end.

(** [signed s x]: the infinity of sign [s] scaled by the sign of the finite
    [x]; [0 * Infinity] is [NaN]. *)
Definition signed (positive : bool) (x : Q) : jsnum :=
  if Qeq_bool x 0 then NaN
  else if Bool.eqb positive (Qltb 0 x) then PInf else NInf.

Definition mul (a b : jsnum) : jsnum :=
  match a, b with
  | NaN, _ | _, NaN => NaN
  | Num x, Num y => num (x * y)
  | PInf, Num x | Num x, PInf => signed true x
  | NInf, Num x | Num x, NInf => signed false x
  | PInf, PInf | NInf, NInf => PInf
  | PInf, NInf | NInf, PInf => NaN
  end.

Definition div (a b : jsnum) : jsnum :=
  match a, b with
  | NaN, _ | _, NaN => NaN
  | Num x, Num y =>
      if Qeq_bool y 0 then signed true x else num (x / y)
  | Num _, (PInf | NInf) => Num 0
  | PInf, Num y => if Qltb y 0 then NInf else PInf
  | NInf, Num y => if Qltb y 0 then PInf else NInf
  | (PInf | NInf), (PInf | NInf) => NaN
  end.

(** [a > b]; every comparison with [NaN] is false. *)
Definition gt (a b : jsnum) : bool :=
  match a, b with
  | NaN, _ | _, NaN => false
  | Num x, Num y => Qltb y x
  | PInf, PInf | NInf, NInf => false
  | PInf, _ | _, NInf => true
  | NInf, _ | _, PInf => false
  end.

Definition min2 (a b : jsnum) : jsnum :=
  match a, b with
  | NaN, _ | _, NaN => NaN
  | _, _ => if gt a b then b else a
  end.

Definition max2 (a b : jsnum) : jsnum :=
  match a, b with
  | NaN, _ | _, NaN => NaN
  | _, _ => if gt b a then b else a
  end.

(** [Math.min(a, b, c)] and [Math.max(a, b)]. *)
Definition Math_min3 (a b c : jsnum) : jsnum := min2 (min2 a b) c.
Definition Math_max (a b : jsnum) : jsnum := max2 a b.

(** [Math.round]: the integer nearest to the argument, ties upwards. *)
Definition Math_round (a : jsnum) : jsnum :=
  match a with
  | Num x => of_Z (Qfloor (x + (1 # 2)))
  | _ => a
  end.

(** Truthiness of a string: only the empty string is falsy. *)
Definition truthy (s : string) : bool :=
  match s with
  | EmptyString => false
  | String _ _ => true
  end.

(** [s.split(' ')]: the pieces between single space characters; the empty
    string gives one empty piece. *)
Fixpoint split_space (s : string) : list string :=
  match s with
  | EmptyString => [EmptyString]
  | String c rest =>
      if Ascii.eqb c " "%char then EmptyString :: split_space rest
      else match split_space rest with
           | w :: ws => String c w :: ws
           | [] => [String c EmptyString]
           end
  end.

(** [arr.join(sep)]. *)
Definition join (sep : string) (parts : list string) : string :=
  String.concat sep parts.

Definition upper_ascii (c : ascii) : ascii :=
  let n := nat_of_ascii c in
  if (97 <=? n)%nat && (n <=? 122)%nat then ascii_of_nat (n - 32) else c.

Fixpoint toUpperCase (s : string) : string :=
  match s with
  | EmptyString => EmptyString
  | String c rest => String (upper_ascii c) (toUpperCase rest)
  end.

End JS.

Import JS.

Declare Scope js_scope.
Delimit Scope js_scope with js.
Bind Scope js_scope with jsnum.
Infix "+" := JS.add : js_scope.
Infix "-" := JS.sub : js_scope.
Infix "*" := JS.mul : js_scope.
Infix "/" := JS.div : js_scope.

Definition integer_literal (a : jsnum) : option Z :=
  match a with
  | Num (Qmake z 1) => Some z
  | _ => None
  end.

Number Notation jsnum JS.of_Z integer_literal : js_scope.

(* ================================================================= *)
(** ** The scene catalog (page.tsx, lines 7-55) *)

Record GradientStop : Type := mkStop {
  stop_color : string;
  stop_position : Q
}.

Record Overlay : Type := mkOverlay {
  ov_x : Q;
  ov_y : Q;
  ov_radius : Q;
  ov_color : string
}.

Record SceneConfig : Type := mkScene {
  label : string;
  gradientStops : list GradientStop;
  overlays : option (list Overlay)
}.

(** [sceneBackgrounds], in the order of its keys. *)
Definition sceneBackgrounds : list (string * SceneConfig) :=
  [ ("studio",
     mkScene "Soft Studio"
       [ mkStop "#f8fafc" 0; mkStop "#e2e8f0" (45 # 100); mkStop "#eef2ff" 1 ]
       (Some [ mkOverlay (25 # 100) (25 # 100) (55 # 100) "rgba(99, 102, 241, 0.18)" ]));
    ("neon",
     mkScene "Neon Pop"
       [ mkStop "#0f172a" 0; mkStop "#1e293b" (45 # 100); mkStop "#4c1d95" 1 ]
       (Some [ mkOverlay (75 # 100) (25 # 100) (5 # 10) "rgba(16, 185, 129, 0.32)";
               mkOverlay (2 # 10) (8 # 10) (65 # 100) "rgba(59, 130, 246, 0.25)" ]));
    ("sunset",
     mkScene "Sunset Glow"
       [ mkStop "#fef3c7" 0; mkStop "#f97316" (55 # 100); mkStop "#ef4444" 1 ]
       (Some [ mkOverlay (25 # 100) (25 # 100) (6 # 10) "rgba(254, 240, 138, 0.4)" ]));
    ("slate",
     mkScene "Graphite"
       [ mkStop "#1f2937" 0; mkStop "#111827" 1 ]
       (Some [ mkOverlay (2 # 10) (85 # 100) (65 # 100) "rgba(148, 163, 184, 0.28)" ])) ].

(** [sceneBackgrounds[key]]; [None] stands for [undefined]. *)
Fixpoint lookup_scene (key : string) (table : list (string * SceneConfig))
  : option SceneConfig :=
  match table with
  | [] => None
  | (k, sc) :: rest => if String.eqb k key then Some sc else lookup_scene key rest
  end.

(** [scene.overlays?.map(f) ?? []] and [scene.overlays?.forEach(f)] both see
    the list, or nothing when the field is absent. *)
Definition overlay_list (scene : SceneConfig) : list Overlay :=
  match overlays scene with
  | Some l => l
  | None => []
  end.

Definition downloadWidth : jsnum := JS.of_Z 1600.
Definition downloadHeight : jsnum := JS.of_Z 1200.

(* ================================================================= *)
(** ** Component state (page.tsx, lines 58-75) *)

Inductive BackgroundMode : Type := gradient | solid | scene.

Record PageState : Type := mkState {
  imageSrc : option string;
  imageName : string;
  brightness : jsnum;
  contrast : jsnum;
  saturation : jsnum;
  blur : jsnum;
  backgroundMode : BackgroundMode;
  solidColor : string;
  gradientStart : string;
  gradientEnd : string;
  sceneKey : string;
  tagline : string;
  description : string;
  ctaText : string;
  badgeText : string
}.

(** The state of a freshly mounted page. *)
Definition initialState : PageState :=
  {| imageSrc := None;
     imageName := "product-shot.png";
     brightness := JS.num (112 # 100);
     contrast := JS.num (108 # 100);
     saturation := JS.num (118 # 100);
     blur := JS.of_Z 0;
     backgroundMode := gradient;
     solidColor := "#f8fafc";
     gradientStart := "#eef2ff";
     gradientEnd := "#e0f2fe";
     sceneKey := "studio";
     tagline := "New Arrival";
     description := "Premium quality product crafted for everyday excellence.";
     ctaText := "Shop Now";
     badgeText := "20% Off" |}.

(* ================================================================= *)
(** ** The canvas *)

(** A decoded [HTMLImageElement]: its [width] and [height] are unsigned. *)
Record Image : Type := mkImage {
  img_src : string;
  img_width : nat;
  img_height : nat
}.

(** A [CanvasGradient]: the line or the two circles it was created with and
    the stops added to it, in the order of the [addColorStop] calls. *)
Inductive CanvasGradient : Type :=
| Linear (x0 y0 x1 y1 : jsnum) (stops : list (jsnum * string))
| Radial (x0 y0 r0 x1 y1 r1 : jsnum) (stops : list (jsnum * string)).

Definition addColorStop (g : CanvasGradient) (offset : jsnum) (color : string)
  : CanvasGradient :=
  match g with
  | Linear x0 y0 x1 y1 stops => Linear x0 y0 x1 y1 (stops ++ [(offset, color)])
  | Radial x0 y0 r0 x1 y1 r1 stops => Radial x0 y0 r0 x1 y1 r1 (stops ++ [(offset, color)])
  end.

Inductive FillStyle : Type :=
| Color (c : string)
| Gradient (g : CanvasGradient).

(** One call or property assignment on the 2D context. *)
Inductive Cmd : Type :=
| SetFillStyle (s : FillStyle)
| SetStrokeStyle (c : string)
| SetLineWidth (w : jsnum)
| SetFont (f : string)
| SetTextBaseline (b : string)
| SetShadowColor (c : string)
| SetShadowBlur (b : jsnum)
| SetShadowOffsetX (v : jsnum)
| SetShadowOffsetY (v : jsnum)
| SetFilter (f : string)
| Save
| Restore
| BeginPath
| MoveTo (x y : jsnum)
| LineTo (x y : jsnum)
| QuadraticCurveTo (cpx cpy x y : jsnum)
| ClosePath
| Fill
| Stroke
| FillRect (x y w h : jsnum)
| FillText (text : string) (x y : jsnum)
| DrawImage (img : Image) (dx dy dw dh : jsnum).

Record Ctx : Type := mkCtx {
  ctx_font : string;
  ctx_saved : list string;
  ctx_log : list Cmd
}.

(** A context just obtained from a new canvas. *)
Definition newCtx : Ctx :=
  {| ctx_font := "10px sans-serif"; ctx_saved := []; ctx_log := [] |}.

(** Canvas code: a state monad over the context. *)
Definition Canvas (A : Type) : Type := Ctx -> A * Ctx.

Definition ret {A : Type} (a : A) : Canvas A := fun c => (a, c).

Definition bind {A B : Type} (m : Canvas A) (k : A -> Canvas B) : Canvas B :=
  fun c => let (a, c') := m c in k a c'.

Declare Scope canvas_scope.
Delimit Scope canvas_scope with canvas.
Notation "x <- m ;; k" := (bind m (fun x => k))
  (at level 61, m at next level, right associativity) : canvas_scope.
Notation "m ;; k" := (bind m (fun _ => k))
  (at level 61, right associativity) : canvas_scope.
Local Open Scope canvas_scope.

(** The context after the commands [cmds] were issued on it. *)
Definition logged (c : Ctx) (cmds : list Cmd) : Ctx :=
  {| ctx_font := ctx_font c;
     ctx_saved := ctx_saved c;
     ctx_log := ctx_log c ++ cmds |}.

Definition emit (cmd : Cmd) : Canvas unit :=
  fun c => (tt, logged c [cmd]).

Definition setFont (f : string) : Canvas unit :=
  fun c => (tt, {| ctx_font := f;
                   ctx_saved := ctx_saved c;
                   ctx_log := ctx_log c ++ [SetFont f] |}).

Definition save : Canvas unit :=
  fun c => (tt, {| ctx_font := ctx_font c;
                   ctx_saved := ctx_font c :: ctx_saved c;
                   ctx_log := ctx_log c ++ [Save] |}).

Definition restore : Canvas unit :=
  fun c => (tt, {| ctx_font := match ctx_saved c with f :: _ => f | [] => ctx_font c end;
                   ctx_saved := tl (ctx_saved c);
                   ctx_log := ctx_log c ++ [Restore] |}).

Fixpoint forEach {A : Type} (f : A -> Canvas unit) (l : list A) : Canvas unit :=
  match l with
  | [] => ret tt
  | a :: rest => f a ;; forEach f rest
  end.

(** The commands on record once a piece of canvas code has run from [c]. *)
Definition run {A : Type} (m : Canvas A) (c : Ctx) : list Cmd := ctx_log (snd (m c)).

(* ================================================================= *)
(** ** What the browser supplies *)

Record Browser : Type := mkBrowser {
  (** [ctx.measureText(text).width] under the font [font]. *)
  text_width : string -> string -> jsnum;
  (** Number::toString, as used by template literals. *)
  numberToString : jsnum -> string;
  (** [loadImage(src)]: the decoded image, or [None] when [onerror] fires. *)
  decode : string -> option Image;
  (** Whether [canvas.getContext('2d')] returns a context. *)
  has_context : bool;
  (** Whether [canvas.toBlob] hands a blob to its callback. *)
  encodes : bool;
  (** The message of the [TypeError] raised by reading a property of
      [undefined]. *)
  typeError_message : string
}.

Section Page.

Variable browser : Browser.

Definition measureText (text : string) : Canvas jsnum :=
  fun c => (text_width browser (ctx_font c) text, c).

Definition str (n : jsnum) : string := numberToString browser n.

(* ================================================================= *)
(** ** Preview descriptors *)

(** [filterValue] (lines 108-111). *)
Definition filterValue (st : PageState) : string :=
  ("brightness(" ++ str (brightness st) ++ ") contrast(" ++ str (contrast st)
   ++ ") saturate(" ++ str (saturation st) ++ ") blur(" ++ str (blur st) ++ "px)")%string.

(** [percent] (lines 124 and 363), also the inline rounding of lines 120,
    125-127. *)
Definition percent (value : Q) : string :=
  (str (JS.Math_round (JS.mul (Num value) (JS.of_Z 100))) ++ "%")%string.

(** The string [gradient] of lines 119-121 and 358-360, from
    [scene.gradientStops]. *)
Definition sceneGradientCss (stops : list GradientStop) : string :=
  ("linear-gradient(135deg, "
   ++ JS.join ", " (map (fun stop => stop_color stop ++ " " ++ percent (stop_position stop))
                        stops)
   ++ ")")%string.

(** One element of the array [overlays] of lines 122-128 and 361-367. *)
Definition overlayCss (o : Overlay) : string :=
  ("radial-gradient(circle at " ++ percent (ov_x o) ++ " " ++ percent (ov_y o) ++ ", "
   ++ ov_color o ++ " 0%, rgba(255, 255, 255, 0) " ++ percent (ov_radius o) ++ ")")%string.

(** The array [[...overlays, gradient]] of lines 129 and 368. *)
Definition sceneLayers (sc : SceneConfig) : list string :=
  map overlayCss (overlay_list sc) ++ [sceneGradientCss (gradientStops sc)].

(** [previewBackground] (lines 352-371); [None] when [sceneBackgrounds[sceneKey]]
    is [undefined] and reading [scene.gradientStops] throws. *)
Definition previewBackground (st : PageState) : option string :=
  match backgroundMode st with
  | solid => Some (solidColor st)
  | scene =>
      match lookup_scene (sceneKey st) sceneBackgrounds with
      | None => None
      | Some sc => Some (JS.join "," (sceneLayers sc))
      end
  | gradient =>
      Some ("linear-gradient(130deg, " ++ gradientStart st ++ ", " ++ gradientEnd st ++ ")")%string
  end.

(** The style object of [backgroundStyle]: one property and its value. *)
Inductive BackgroundStyle : Type :=
| background (value : string)
| backgroundImage (value : string).

(** [backgroundStyle] (lines 113-135). *)
Definition backgroundStyle (st : PageState) : option BackgroundStyle :=
  match backgroundMode st with
  | solid => Some (background (solidColor st))
  | scene =>
      match lookup_scene (sceneKey st) sceneBackgrounds with
      | None => None
      | Some sc => Some (backgroundImage (JS.join "," (sceneLayers sc)))
      end
  | gradient =>
      Some (background ("linear-gradient(130deg, " ++ gradientStart st ++ " 0%, "
                        ++ gradientEnd st ++ " 100%)")%string)
  end.

(* ================================================================= *)
(** ** Canvas helpers *)

(** The font shorthand [<weight and size> "Inter"], with its quotation marks. *)
Definition inter (weight_size : string) : string :=
  let quote := String (ascii_of_nat 34) EmptyString in
  (weight_size ++ " " ++ quote ++ "Inter" ++ quote)%string.

(** [drawRoundedRect] (lines 147-159). *)
Definition drawRoundedRect (x y width height radius : jsnum) : Canvas unit :=
  emit BeginPath ;;
  emit (MoveTo (x + radius) y) ;;
  emit (LineTo (x + width - radius) y) ;;
  emit (QuadraticCurveTo (x + width) y (x + width) (y + radius)) ;;
  emit (LineTo (x + width) (y + height - radius)) ;;
  emit (QuadraticCurveTo (x + width) (y + height) (x + width - radius) (y + height)) ;;
  emit (LineTo (x + radius) (y + height)) ;;
  emit (QuadraticCurveTo x (y + height) x (y + height - radius)) ;;
  emit (LineTo x (y + radius)) ;;
  emit (QuadraticCurveTo x y (x + radius) y) ;;
  emit ClosePath.

(** The [for] loop of [wrapText] (lines 172-182), from the given values of
    [line] and [drawY]; it returns their final values. *)
Fixpoint wrapText_loop (words : list string) (x maxWidth lineHeight : jsnum)
    (line : string) (drawY : jsnum) : Canvas (string * jsnum) :=
  match words with
  | [] => ret (line, drawY)
  | word :: rest =>
      let testLine := if JS.truthy line then (line ++ " " ++ word)%string else word in
      width <- measureText testLine ;;
      if JS.gt width maxWidth && JS.truthy line then
        emit (FillText line x drawY) ;;
        wrapText_loop rest x maxWidth lineHeight word (drawY + lineHeight)
      else
        wrapText_loop rest x maxWidth lineHeight testLine drawY
  end.

(** [wrapText] (lines 161-188). *)
Definition wrapText (text : string) (x y maxWidth lineHeight : jsnum) : Canvas jsnum :=
  let words := JS.split_space text in
  state <- wrapText_loop words x maxWidth lineHeight EmptyString y ;;
  let (line, drawY) := state : string * jsnum in
  if JS.truthy line then
    emit (FillText line x drawY) ;;
    ret (drawY + lineHeight)%js
  else
    ret drawY.

(* ================================================================= *)
(** ** The export: [handleDownload] (lines 190-336) *)

(** Lines 208-239: the backdrop.  [None] when the scene key is not in the
    catalog: reading [scene.gradientStops] throws before anything is drawn. *)
Definition paintBackdrop (st : PageState) : option (Canvas unit) :=
  let width := downloadWidth in
  let height := downloadHeight in
  match backgroundMode st with
  | solid =>
      Some (emit (SetFillStyle (Color (solidColor st))) ;;
            emit (FillRect 0 0 width height))
  | scene =>
      match lookup_scene (sceneKey st) sceneBackgrounds with
      | None => None
      | Some sc =>
          let gradient :=
            fold_left (fun g stop => addColorStop g (Num (stop_position stop)) (stop_color stop))
                      (gradientStops sc) (Linear 0 0 width height []) in
          Some (emit (SetFillStyle (Gradient gradient)) ;;
                emit (FillRect 0 0 width height) ;;
                forEach (fun o =>
                  let overlayGradient :=
                    Radial (width * Num (ov_x o)) (height * Num (ov_y o)) 0
                           (width * Num (ov_x o)) (height * Num (ov_y o))
                           (JS.Math_max width height * Num (ov_radius o)) [] in
                  let overlayGradient := addColorStop overlayGradient 0 (ov_color o) in
                  let overlayGradient := addColorStop overlayGradient 1 "rgba(255,255,255,0)" in
                  emit (SetFillStyle (Gradient overlayGradient)) ;;
                  emit (FillRect 0 0 width height))
                  (overlay_list sc))
      end
  | gradient =>
      let gradient := Linear 0 0 width height [] in
      let gradient := addColorStop gradient 0 (gradientStart st) in
      let gradient := addColorStop gradient 1 (gradientEnd st) in
      Some (emit (SetFillStyle (Gradient gradient)) ;;
            emit (FillRect 0 0 width height))
  end.

Definition padding : jsnum := 140%js.
Definition textColumnWidth : jsnum := downloadWidth * JS.num (38 # 100).

(** Lines 301-307: where the image goes. *)
Record Placement : Type := mkPlacement {
  scale : jsnum;
  drawWidth : jsnum;
  drawHeight : jsnum;
  imageX : jsnum;
  imageY : jsnum
}.

Definition availableImageWidth : jsnum := downloadWidth - textColumnWidth - padding * 2.
Definition availableImageHeight : jsnum := downloadHeight - padding * 2.

Definition placeImage (baseImage : Image) : Placement :=
  let scale := JS.Math_min3 (availableImageWidth / JS.of_nat (img_width baseImage))
                            (availableImageHeight / JS.of_nat (img_height baseImage))
                            (JS.num (12 # 10)) in
  let drawWidth := (JS.of_nat (img_width baseImage) * scale)%js in
  let drawHeight := (JS.of_nat (img_height baseImage) * scale)%js in
  {| scale := scale;
     drawWidth := drawWidth;
     drawHeight := drawHeight;
     imageX := downloadWidth - padding - drawWidth;
     imageY := padding + (availableImageHeight - drawHeight) / 2 |}.

(** The filter assigned to the context at line 314. *)
Definition exportFilter (st : PageState) : string :=
  ("brightness(" ++ str (brightness st) ++ ") contrast(" ++ str (contrast st)
   ++ ") saturate(" ++ str (saturation st) ++ ") blur(" ++ str (blur st) ++ "px)")%string.

(** Lines 241-245: the glass card. *)
Definition paintCard : Canvas unit :=
  let width := downloadWidth in
  let height := downloadHeight in
  save ;;
  emit (SetFillStyle (Color "rgba(255, 255, 255, 0.18)")) ;;
  drawRoundedRect 80 80 (width - 160) (height - 160) 48 ;;
  emit Fill ;;
  restore.

(** Lines 249-299: badge, headline, description and button. *)
Definition paintCopy (st : PageState) : Canvas unit :=
  let cursorY := (padding + 20)%js in
  cursorY <-
    (if JS.truthy (badgeText st) then
       let badgeX := padding in
       let badgeY := cursorY in
       let badgePaddingX := 28%js in
       let badgeHeight := 58%js in
       setFont (inter "600 28px") ;;
       badgeMetrics <- measureText (JS.toUpperCase (badgeText st)) ;;
       let badgeWidth := (badgeMetrics + badgePaddingX * 2)%js in
       save ;;
       emit (SetFillStyle (Color "rgba(79, 70, 229, 0.12)")) ;;
       emit (SetStrokeStyle "rgba(79, 70, 229, 0.35)") ;;
       emit (SetLineWidth 2) ;;
       drawRoundedRect badgeX badgeY badgeWidth badgeHeight 32 ;;
       emit Fill ;;
       emit Stroke ;;
       emit (SetFillStyle (Color "#4338ca")) ;;
       emit (SetTextBaseline "middle") ;;
       emit (FillText (JS.toUpperCase (badgeText st))
                      (badgeX + badgePaddingX) (badgeY + badgeHeight / 2)) ;;
       restore ;;
       ret (badgeY + badgeHeight + 48)%js
     else ret cursorY) ;;
  cursorY <-
    (if JS.truthy (tagline st) then
       emit (SetFillStyle (Color "#0f172a")) ;;
       setFont (inter "700 78px") ;;
       emit (SetTextBaseline "top") ;;
       y <- wrapText (tagline st) padding cursorY textColumnWidth 84 ;;
       ret (y + 36)%js
     else ret cursorY) ;;
  cursorY <-
    (if JS.truthy (description st) then
       emit (SetFillStyle (Color "rgba(15, 23, 42, 0.75)")) ;;
       setFont (inter "400 32px") ;;
       y <- wrapText (description st) padding cursorY textColumnWidth 46 ;;
       ret (y + 40)%js
     else ret cursorY) ;;
  (if JS.truthy (ctaText st) then
     let buttonHeight := 76%js in
     setFont (inter "600 32px") ;;
     metrics <- measureText (ctaText st) ;;
     let buttonWidth := JS.Math_max (metrics + 80) 260 in
     save ;;
     emit (SetFillStyle (Color "#6366f1")) ;;
     drawRoundedRect padding cursorY buttonWidth buttonHeight (buttonHeight / 2) ;;
     emit Fill ;;
     emit (SetFillStyle (Color "#ffffff")) ;;
     emit (SetTextBaseline "middle") ;;
     emit (FillText (ctaText st)
                    (padding + buttonWidth / 2 - metrics / 2)
                    (cursorY + buttonHeight / 2 + 4)) ;;
     restore
   else ret tt).

(** Lines 301-316: the image, with its shadow and filter. *)
Definition paintImage (st : PageState) (baseImage : Image) : Canvas unit :=
  let place := placeImage baseImage in
  save ;;
  emit (SetShadowColor "rgba(15, 23, 42, 0.22)") ;;
  emit (SetShadowBlur 55) ;;
  emit (SetShadowOffsetX 24) ;;
  emit (SetShadowOffsetY 32) ;;
  emit (SetFilter (exportFilter st)) ;;
  emit (DrawImage baseImage (imageX place) (imageY place) (drawWidth place) (drawHeight place)) ;;
  restore.

(** Lines 208-316: everything drawn between obtaining the context and
    encoding the canvas. *)
Definition compose (st : PageState) (baseImage : Image) : option (Canvas unit) :=
  match paintBackdrop st with
  | None => None
  | Some backdrop =>
      Some (backdrop ;; paintCard ;; paintCopy st ;; paintImage st baseImage)
  end.

(** What [handleDownload] does, in order. *)
Inductive Effect : Type :=
| setDownloadError (message : option string)
| setExporting (flag : bool)
| awaitFontsReady
| loadImage (src : string)
| createCanvas (width height : jsnum)
| getContext
| draw (cmd : Cmd)
| toBlob (type : string) (quality : jsnum)
| clickDownloadLink (name : string)
| scheduleRevoke (ms : jsnum).

(** [!imageSrc]. *)
Definition noImage (src : option string) : bool :=
  match src with
  | None => true
  | Some s => negb (JS.truthy s)
  end.

(** [handleDownload]: the guard of lines 191-194, then the [try] block with
    its [catch] and [finally]. *)
Definition handleDownload (st : PageState) : list Effect :=
  match imageSrc st with
  | Some src =>
      if noImage (imageSrc st) then [setDownloadError (Some "Upload an image first.")]
      else
        [setDownloadError None; setExporting true; awaitFontsReady; loadImage src]
        ++ match decode browser src with
           | None =>
               (* [onerror] rejects with an event, which is not an [Error] *)
               [setDownloadError (Some "Failed to export image.")]
           | Some baseImage =>
               [createCanvas downloadWidth downloadHeight; getContext]
               ++ if negb (has_context browser)
                  then [setDownloadError (Some "Could not get canvas context.")]
                  else
                    match compose st baseImage with
                    | None => [setDownloadError (Some (typeError_message browser))]
                    | Some drawing =>
                        map draw (run drawing newCtx)
                        ++ [toBlob "image/png" (JS.num (95 # 100))]
                        ++ if encodes browser
                           then [clickDownloadLink
                                   (if JS.truthy (imageName st) then imageName st
                                    else "product-shot.png");
                                 scheduleRevoke 4000]
                           else [setDownloadError (Some "Unable to export image.")]
                    end
           end
        ++ [setExporting false]
  | None => [setDownloadError (Some "Upload an image first.")]
  end.

End Page.

(* ================================================================= *)
(** ** Vocabulary of the specification *)

(** *** Text layout *)

(** The texts of the [fillText] calls of a command sequence, in order. *)
Definition lineTexts (cmds : list Cmd) : list string :=
  flat_map (fun cmd => match cmd with FillText t _ _ => [t] | _ => [] end) cmds.

(** The commands a piece of canvas code adds to the context it starts from. *)
Definition emitted {A : Type} (m : Canvas A) (c : Ctx) : list Cmd :=
  skipn (List.length (ctx_log c)) (ctx_log (snd (m c))).

(** [measureText(t).width > maxWidth] under the font [font]. *)
Definition exceeds (browser : Browser) (font : string) (maxWidth : jsnum) (t : string)
  : bool :=
  JS.gt (text_width browser font t) maxWidth.

(** The greedy grouping of section 4.2 of the specification, on words: a
    word joins the current group when the group, joined by single spaces
    with the word added, does not exceed the width; otherwise a non-empty
    current group is closed and the word opens the next one. *)
Fixpoint greedy_groups (over : string -> bool) (words current : list string)
  : list (list string) :=
  match words with
  | [] => match current with [] => [] | _ :: _ => [current] end
  | word :: rest =>
      match current with
      | [] => greedy_groups over rest [word]
      | _ :: _ =>
          if over (JS.join " " (current ++ [word]))
          then current :: greedy_groups over rest [word]
          else greedy_groups over rest (current ++ [word])
      end
  end.

(** The lines the loop of [wrapText] flushes and the line it ends with. *)
Fixpoint loop_lines (over : string -> bool) (words : list string) (line : string)
  : list string * string :=
  match words with
  | [] => ([], line)
  | word :: rest =>
      let testLine := if JS.truthy line then (line ++ " " ++ word)%string else word in
      if over testLine && JS.truthy line
      then let (ls, final) := loop_lines over rest word in (line :: ls, final)
      else loop_lines over rest testLine
  end.

(** All the lines [wrapText] draws: the flushed ones, then the last one
    unless it is empty. *)
Definition wrapped_lines (over : string -> bool) (text : string) : list string :=
  let (ls, final) := loop_lines over (JS.split_space text) EmptyString in
  ls ++ (if JS.truthy final then [final] else []).

(** [lineHeight] added [n] times to [y]. *)
Fixpoint advance (lineHeight : jsnum) (n : nat) (y : jsnum) : jsnum :=
  match n with
  | O => y
  | S k => advance lineHeight k (y + lineHeight)
  end.

(** The [fillText] calls that put [lines] one below the other from [y]. *)
Fixpoint place_lines (x lineHeight : jsnum) (lines : list string) (y : jsnum) : list Cmd :=
  match lines with
  | [] => []
  | l :: rest => FillText l x y :: place_lines x lineHeight rest (y + lineHeight)
  end.

Definition has_space (s : string) : bool :=
  existsb (fun c => Ascii.eqb c " "%char) (list_ascii_of_string s).

Definition all_spaces (s : string) : bool :=
  forallb (fun c => Ascii.eqb c " "%char) (list_ascii_of_string s).

(** [tidy_from after_space s]: [s] has no two spaces in a row and does not
    end with a space, nor start with one when [after_space] holds; the empty
    string counts as ending with a space when [after_space] holds. *)
Fixpoint tidy_from (after_space : bool) (s : string) : bool :=
  match s with
  | EmptyString => negb after_space
  | String c rest =>
      if Ascii.eqb c " "%char then negb after_space && tidy_from true rest
      else tidy_from false rest
  end.

(** A non-empty text with no leading, trailing or doubled space. *)
Definition tidy (text : string) : bool := tidy_from true text.

(** *** The scene catalog *)

(** Gradient stops as section 3 of the specification wants them: positions
    in non-decreasing order, the first at 0 and the last at 1. *)
Definition well_formed_stops (stops : list GradientStop) : Prop :=
  let positions := map stop_position stops in
  Sorted.StronglySorted Qle positions
  /\ (exists first, hd_error positions = Some first /\ first == 0)
  /\ (exists final, hd_error (rev positions) = Some final /\ final == 1).

(** *** The filter chain *)

(** One function of a CSS filter chain. *)
Inductive FilterFunction : Type :=
| brightnessFn (amount : jsnum)
| contrastFn (amount : jsnum)
| saturateFn (amount : jsnum)
| blurFn (radius : jsnum).

Definition filterFunctionCss (browser : Browser) (f : FilterFunction) : string :=
  match f with
  | brightnessFn a => "brightness(" ++ numberToString browser a ++ ")"
  | contrastFn a => "contrast(" ++ numberToString browser a ++ ")"
  | saturateFn a => "saturate(" ++ numberToString browser a ++ ")"
  | blurFn r => "blur(" ++ numberToString browser r ++ "px)"
  end%string.

(** A filter chain as CSS writes it: its functions, first applied first,
    separated by spaces. *)
Definition filterChainCss (browser : Browser) (chain : list FilterFunction) : string :=
  JS.join " " (map (filterFunctionCss browser) chain).

(** *** Image fitting *)

(** The smaller of two rationals, as [Math.min] picks it. *)
Definition qmin (a b : Q) : Q := if JS.Qltb b a then b else a.

(** The region left for the image: to the right of the text column, and
    [padding] away from the top, right and bottom edges of the canvas. *)
Definition imageRegionLeft : Q := 748.
Definition imageRegionRight : Q := 1460.
Definition imageRegionTop : Q := 140.
Definition imageRegionBottom : Q := 1060.

(** *** What the export does *)

(** Creating the canvas, obtaining its context, drawing, or encoding. *)
Definition surface_work (e : Effect) : bool :=
  match e with
  | createCanvas _ _ | getContext | draw _ | toBlob _ _ => true
  | _ => false
  end.

(** Every command the canvas code [m] adds, from whatever context, satisfies
    [P]. *)
Definition issues {A : Type} (P : Cmd -> Prop) (m : Canvas A) : Prop :=
  forall c, exists cmds,
    ctx_log (snd (m c)) = ctx_log c ++ cmds /\ Forall P cmds.

Definition is_drawImage (cmd : Cmd) : bool :=
  match cmd with
  | DrawImage _ _ _ _ _ => true
  | _ => false
  end.

(** Not a [drawImage] call. *)
Definition no_image (cmd : Cmd) : Prop := is_drawImage cmd = false.

(** A [drawImage] call whose destination rectangle has no width or no
    height; any other command. *)
Definition empty_destination (cmd : Cmd) : Prop :=
  match cmd with
  | DrawImage _ _ _ dw dh => dw = 0%js \/ dh = 0%js
  | _ => True
  end.

(** The effects that draw the image, and those that report a failure. *)
Definition draws_image (e : Effect) : bool :=
  match e with
  | draw cmd => is_drawImage cmd
  | _ => false
  end.

Definition reports_failure (e : Effect) : bool :=
  match e with
  | setDownloadError (Some _) => true
  | _ => false
  end.

(** The scene key, when it is used, names a preset of the catalog. *)
Definition backdrop_known (st : PageState) : Prop :=
  backgroundMode st = scene ->
  exists sc, lookup_scene (sceneKey st) sceneBackgrounds = Some sc.

(** *** Layers of the backdrop *)

Inductive Layer : Type :=
| SolidLayer (color : string)
| TwoColorLayer (start finish : string)
| SceneLayer (stops : list GradientStop)
| OverlayLayer (o : Overlay).

(** The layer as the preview writes it in CSS. *)
Definition cssOfLayer (browser : Browser) (l : Layer) : string :=
  match l with
  | SolidLayer color => color
  | TwoColorLayer start finish =>
      ("linear-gradient(130deg, " ++ start ++ ", " ++ finish ++ ")")%string
  | SceneLayer stops => sceneGradientCss browser stops
  | OverlayLayer o => overlayCss browser o
  end.

(** The layer as the export paints it: a fill style and a fill of the whole
    canvas. *)
Definition fillOfLayer (l : Layer) : list Cmd :=
  let style :=
    match l with
    | SolidLayer color => Color color
    | TwoColorLayer start finish =>
        Gradient (Linear 0 0 1600 1200 [(0%js, start); (1%js, finish)])
    | SceneLayer stops =>
        Gradient (Linear 0 0 1600 1200
                    (map (fun stop => (Num (stop_position stop), stop_color stop)) stops))
    | OverlayLayer o =>
        Gradient (Radial (1600 * Num (ov_x o)) (1200 * Num (ov_y o)) 0
                         (1600 * Num (ov_x o)) (1200 * Num (ov_y o))
                         (1600 * Num (ov_radius o))
                         [(0%js, ov_color o); (1%js, "rgba(255,255,255,0)")])
    end in
  [SetFillStyle style; FillRect 0 0 1600 1200].

(** A CSS background value shows a stack of layers, given bottom-most first:
    CSS lists the layers of a background separated by commas, the top-most
    first. *)
Definition css_shows (browser : Browser) (value : string) (stack : list Layer) : Prop :=
  value = JS.join "," (rev (map (cssOfLayer browser) stack)).

(** A command sequence paints a stack of layers, given bottom-most first:
    each fill covers what was painted before it. *)
Definition canvas_paints (cmds : list Cmd) (stack : list Layer) : Prop :=
  cmds = flat_map fillOfLayer stack.

(** The backdrop of section 4.1 of the specification, bottom-most layer
    first: the solid colour; or the two-colour gradient; or the preset's
    gradient and then its overlays in catalog order, the first listed being
    the lowest of them. *)
Definition specified_stack (st : PageState) : list Layer :=
  match backgroundMode st with
  | solid => [SolidLayer (solidColor st)]
  | gradient => [TwoColorLayer (gradientStart st) (gradientEnd st)]
  | scene =>
      match lookup_scene (sceneKey st) sceneBackgrounds with
      | Some sc => SceneLayer (gradientStops sc) :: map OverlayLayer (overlay_list sc)
      | None => []
      end
  end.

(** The stack the preview shows: as [specified_stack], with the overlays in
    the opposite order. *)
Definition preview_stack (st : PageState) : list Layer :=
  match backgroundMode st with
  | scene =>
      match lookup_scene (sceneKey st) sceneBackgrounds with
      | Some sc => SceneLayer (gradientStops sc) :: rev (map OverlayLayer (overlay_list sc))
      | None => []
      end
  | _ => specified_stack st
  end.

(** A line from [(x0, y0)] to [(x1, y1)], with [y] growing downwards, runs
    at the CSS angle 135deg when it goes to the bottom right as far down as
    across: the direction (1, 1) of section 4.1 of the specification. *)
Definition along_135deg (x0 y0 x1 y1 : Q) : Prop :=
  0 < x1 - x0 /\ x1 - x0 == y1 - y0.

(** *** Inputs for the examples *)

(** The digits of [n / d] after the decimal point, at most [fuel] of them,
    for [0 <= n < d]. *)
Fixpoint fraction_digits (fuel : nat) (n d : Z) : string :=
  match fuel with
  | O => EmptyString
  | S k =>
      if (n =? 0)%Z then EmptyString
      else (DecimalString.NilZero.string_of_int (Z.to_int (10 * n / d))
            ++ fraction_digits k (10 * n mod d) d)%string
  end.

(** A number in decimal, with at most 17 digits after the point; this is
    what Number::toString gives for the integers and the short decimals
    used here. *)
Definition decimal (n : jsnum) : string :=
  match n with
  | Num (Qmake z d) =>
      let whole := (Z.abs z / Zpos d)%Z in
      let rest := (Z.abs z mod Zpos d)%Z in
      ((if (z <? 0)%Z then "-" else EmptyString)
       ++ DecimalString.NilZero.string_of_int (Z.to_int whole)
       ++ (if (rest =? 0)%Z then EmptyString
           else "." ++ fraction_digits 17 rest (Zpos d)))%string
  | PInf => "Infinity"
  | NInf => "-Infinity"
  | NaN => "NaN"
  end.

(** A browser for examples: every character is 3 units wide in every font,
    numbers print in decimal, every source decodes to a 2000 x 1000 image,
    and the context and the encoder are available. *)
Definition sampleBrowser : Browser :=
  {| text_width := fun _ t => JS.of_Z (3 * Z.of_nat (String.length t));
     numberToString := decimal;
     decode := fun src => Some (mkImage src 2000 1000);
     has_context := true;
     encodes := true;
     typeError_message := "Cannot read properties of undefined" |}.

(** A browser that decodes every source to an image without width or
    height, and otherwise behaves as [sampleBrowser]. *)
Definition emptyImageBrowser : Browser :=
  {| text_width := text_width sampleBrowser;
     numberToString := numberToString sampleBrowser;
     decode := fun src => Some (mkImage src 0 0);
     has_context := true;
     encodes := true;
     typeError_message := typeError_message sampleBrowser |}.

(** The initial page after the upload of an image. *)
Definition uploadedState : PageState :=
  {| imageSrc := Some "blob:photo";
     imageName := "photo-designed.png";
     brightness := brightness initialState;
     contrast := contrast initialState;
     saturation := saturation initialState;
     blur := blur initialState;
     backgroundMode := backgroundMode initialState;
     solidColor := solidColor initialState;
     gradientStart := gradientStart initialState;
     gradientEnd := gradientEnd initialState;
     sceneKey := sceneKey initialState;
     tagline := tagline initialState;
     description := description initialState;
     ctaText := ctaText initialState;
     badgeText := badgeText initialState |}.

(** The uploaded page with the scene [neon] as backdrop. *)
Definition neonState : PageState :=
  {| imageSrc := imageSrc uploadedState;
     imageName := imageName uploadedState;
     brightness := brightness uploadedState;
     contrast := contrast uploadedState;
     saturation := saturation uploadedState;
     blur := blur uploadedState;
     backgroundMode := scene;
     solidColor := solidColor uploadedState;
     gradientStart := gradientStart uploadedState;
     gradientEnd := gradientEnd uploadedState;
     sceneKey := "neon";
     tagline := tagline uploadedState;
     description := description uploadedState;
     ctaText := ctaText uploadedState;
     badgeText := badgeText uploadedState |}.

(* ================================================================= *)
(** ** The handlers of the form and of the file input *)

(** The state setters of lines 58-72: each replaces one field. *)
Definition setImageSrc (value : option string) (st : PageState) : PageState :=
  {|
     imageSrc := value;
     imageName := imageName st;
     brightness := brightness st;
     contrast := contrast st;
     saturation := saturation st;
     blur := blur st;
     backgroundMode := backgroundMode st;
     solidColor := solidColor st;
     gradientStart := gradientStart st;
     gradientEnd := gradientEnd st;
     sceneKey := sceneKey st;
     tagline := tagline st;
     description := description st;
     ctaText := ctaText st;
     badgeText := badgeText st |}.

Definition setImageName (value : string) (st : PageState) : PageState :=
  {|
     imageSrc := imageSrc st;
     imageName := value;
     brightness := brightness st;
     contrast := contrast st;
     saturation := saturation st;
     blur := blur st;
     backgroundMode := backgroundMode st;
     solidColor := solidColor st;
     gradientStart := gradientStart st;
     gradientEnd := gradientEnd st;
     sceneKey := sceneKey st;
     tagline := tagline st;
     description := description st;
     ctaText := ctaText st;
     badgeText := badgeText st |}.

Definition setBrightness (value : jsnum) (st : PageState) : PageState :=
  {|
     imageSrc := imageSrc st;
     imageName := imageName st;
     brightness := value;
     contrast := contrast st;
     saturation := saturation st;
     blur := blur st;
     backgroundMode := backgroundMode st;
     solidColor := solidColor st;
     gradientStart := gradientStart st;
     gradientEnd := gradientEnd st;
     sceneKey := sceneKey st;
     tagline := tagline st;
     description := description st;
     ctaText := ctaText st;
     badgeText := badgeText st |}.

Definition setContrast (value : jsnum) (st : PageState) : PageState :=
  {|
     imageSrc := imageSrc st;
     imageName := imageName st;
     brightness := brightness st;
     contrast := value;
     saturation := saturation st;
     blur := blur st;
     backgroundMode := backgroundMode st;
     solidColor := solidColor st;
     gradientStart := gradientStart st;
     gradientEnd := gradientEnd st;
     sceneKey := sceneKey st;
     tagline := tagline st;
     description := description st;
     ctaText := ctaText st;
     badgeText := badgeText st |}.

Definition setSaturation (value : jsnum) (st : PageState) : PageState :=
  {|
     imageSrc := imageSrc st;
     imageName := imageName st;
     brightness := brightness st;
     contrast := contrast st;
     saturation := value;
     blur := blur st;
     backgroundMode := backgroundMode st;
     solidColor := solidColor st;
     gradientStart := gradientStart st;
     gradientEnd := gradientEnd st;
     sceneKey := sceneKey st;
     tagline := tagline st;
     description := description st;
     ctaText := ctaText st;
     badgeText := badgeText st |}.

Definition setBlur (value : jsnum) (st : PageState) : PageState :=
  {|
     imageSrc := imageSrc st;
     imageName := imageName st;
     brightness := brightness st;
     contrast := contrast st;
     saturation := saturation st;
     blur := value;
     backgroundMode := backgroundMode st;
     solidColor := solidColor st;
     gradientStart := gradientStart st;
     gradientEnd := gradientEnd st;
     sceneKey := sceneKey st;
     tagline := tagline st;
     description := description st;
     ctaText := ctaText st;
     badgeText := badgeText st |}.

Definition setBackgroundMode (value : BackgroundMode) (st : PageState) : PageState :=
  {|
     imageSrc := imageSrc st;
     imageName := imageName st;
     brightness := brightness st;
     contrast := contrast st;
     saturation := saturation st;
     blur := blur st;
     backgroundMode := value;
     solidColor := solidColor st;
     gradientStart := gradientStart st;
     gradientEnd := gradientEnd st;
     sceneKey := sceneKey st;
     tagline := tagline st;
     description := description st;
     ctaText := ctaText st;
     badgeText := badgeText st |}.

Definition setSolidColor (value : string) (st : PageState) : PageState :=
  {|
     imageSrc := imageSrc st;
     imageName := imageName st;
     brightness := brightness st;
     contrast := contrast st;
     saturation := saturation st;
     blur := blur st;
     backgroundMode := backgroundMode st;
     solidColor := value;
     gradientStart := gradientStart st;
     gradientEnd := gradientEnd st;
     sceneKey := sceneKey st;
     tagline := tagline st;
     description := description st;
     ctaText := ctaText st;
     badgeText := badgeText st |}.

Definition setGradientStart (value : string) (st : PageState) : PageState :=
  {|
     imageSrc := imageSrc st;
     imageName := imageName st;
     brightness := brightness st;
     contrast := contrast st;
     saturation := saturation st;
     blur := blur st;
     backgroundMode := backgroundMode st;
     solidColor := solidColor st;
     gradientStart := value;
     gradientEnd := gradientEnd st;
     sceneKey := sceneKey st;
     tagline := tagline st;
     description := description st;
     ctaText := ctaText st;
     badgeText := badgeText st |}.

Definition setGradientEnd (value : string) (st : PageState) : PageState :=
  {|
     imageSrc := imageSrc st;
     imageName := imageName st;
     brightness := brightness st;
     contrast := contrast st;
     saturation := saturation st;
     blur := blur st;
     backgroundMode := backgroundMode st;
     solidColor := solidColor st;
     gradientStart := gradientStart st;
     gradientEnd := value;
     sceneKey := sceneKey st;
     tagline := tagline st;
     description := description st;
     ctaText := ctaText st;
     badgeText := badgeText st |}.

Definition setSceneKey (value : string) (st : PageState) : PageState :=
  {|
     imageSrc := imageSrc st;
     imageName := imageName st;
     brightness := brightness st;
     contrast := contrast st;
     saturation := saturation st;
     blur := blur st;
     backgroundMode := backgroundMode st;
     solidColor := solidColor st;
     gradientStart := gradientStart st;
     gradientEnd := gradientEnd st;
     sceneKey := value;
     tagline := tagline st;
     description := description st;
     ctaText := ctaText st;
     badgeText := badgeText st |}.

Definition setTagline (value : string) (st : PageState) : PageState :=
  {|
     imageSrc := imageSrc st;
     imageName := imageName st;
     brightness := brightness st;
     contrast := contrast st;
     saturation := saturation st;
     blur := blur st;
     backgroundMode := backgroundMode st;
     solidColor := solidColor st;
     gradientStart := gradientStart st;
     gradientEnd := gradientEnd st;
     sceneKey := sceneKey st;
     tagline := value;
     description := description st;
     ctaText := ctaText st;
     badgeText := badgeText st |}.

Definition setDescription (value : string) (st : PageState) : PageState :=
  {|
     imageSrc := imageSrc st;
     imageName := imageName st;
     brightness := brightness st;
     contrast := contrast st;
     saturation := saturation st;
     blur := blur st;
     backgroundMode := backgroundMode st;
     solidColor := solidColor st;
     gradientStart := gradientStart st;
     gradientEnd := gradientEnd st;
     sceneKey := sceneKey st;
     tagline := tagline st;
     description := value;
     ctaText := ctaText st;
     badgeText := badgeText st |}.

Definition setCtaText (value : string) (st : PageState) : PageState :=
  {|
     imageSrc := imageSrc st;
     imageName := imageName st;
     brightness := brightness st;
     contrast := contrast st;
     saturation := saturation st;
     blur := blur st;
     backgroundMode := backgroundMode st;
     solidColor := solidColor st;
     gradientStart := gradientStart st;
     gradientEnd := gradientEnd st;
     sceneKey := sceneKey st;
     tagline := tagline st;
     description := description st;
     ctaText := value;
     badgeText := badgeText st |}.

Definition setBadgeText (value : string) (st : PageState) : PageState :=
  {|
     imageSrc := imageSrc st;
     imageName := imageName st;
     brightness := brightness st;
     contrast := contrast st;
     saturation := saturation st;
     blur := blur st;
     backgroundMode := backgroundMode st;
     solidColor := solidColor st;
     gradientStart := gradientStart st;
     gradientEnd := gradientEnd st;
     sceneKey := sceneKey st;
     tagline := tagline st;
     description := description st;
     ctaText := ctaText st;
     badgeText := value |}.

(** A selected file: its name and its media type. *)
Record File : Type := mkFile {
  file_name : string;
  file_type : string
}.

Definition has_dot (s : string) : bool :=
  existsb (fun c => Ascii.eqb c "."%char) (list_ascii_of_string s).

(** [name.replace(/\.[^.]+$/, '')]: the leftmost place where a dot is
    followed, up to the end of the string, by one character or more none of
    which is a dot; from there on the string is dropped. *)
Fixpoint strip_extension (name : string) : string :=
  match name with
  | EmptyString => EmptyString
  | String c rest =>
      if Ascii.eqb c "."%char && JS.truthy rest && negb (has_dot rest)
      then EmptyString
      else String c (strip_extension rest)
  end.

(** The name given to the design of a file (line 101). *)
Definition designedName (name : string) : string :=
  (strip_extension name ++ "-designed.png")%string.

(** The page with the ref [previousObjectURL] and the object URLs that are
    alive in the browser. *)
Record Session : Type := mkSession {
  page : PageState;
  previousObjectURL : option string;
  liveURLs : list string
}.

(** [URL.revokeObjectURL(url)]. *)
Definition revokeObjectURL (url : string) (live : list string) : list string :=
  filter (fun u => negb (String.eqb u url)) live.

(** [if (previousObjectURL.current) URL.revokeObjectURL(previousObjectURL.current)]
    (lines 81-83 and 95-97). *)
Definition revokePrevious (s : Session) : list string :=
  match previousObjectURL s with
  | Some url => if JS.truthy url then revokeObjectURL url (liveURLs s) else liveURLs s
  | None => liveURLs s
  end.

(** A freshly mounted page. *)
Definition initialSession : Session :=
  {| page := initialState; previousObjectURL := None; liveURLs := [] |}.

(** What the user does. *)
Inductive Event : Type :=
| fileChange (file : option File)
| clickBackgroundMode (mode : BackgroundMode)
| inputSolidColor (value : string)
| inputGradientStart (value : string)
| inputGradientEnd (value : string)
| clickTheme (button : nat)
| inputBrightness (value : jsnum)
| inputContrast (value : jsnum)
| inputSaturation (value : jsnum)
| inputBlur (value : jsnum)
| inputBadge (value : string)
| inputHeadline (value : string)
| inputDescription (value : string)
| inputCta (value : string).

Section Handlers.

(** [URL.createObjectURL(file)]: the URL the browser hands out, which may
    depend on those alive. *)
Variable createObjectURL : File -> list string -> string.

(** [handleFileChange] (lines 87-102). *)
Definition handleFileChange (file : option File) (s : Session) : Session :=
  match file with
  | None => s
  | Some f =>
      if negb (String.prefix "image/" (file_type f)) then s
      else
        let live := revokePrevious s in
        let objectUrl := createObjectURL f live in
        {| page := setImageName (designedName (file_name f))
                     (setImageSrc (Some objectUrl) (page s));
           previousObjectURL := Some objectUrl;
           liveURLs := live ++ [objectUrl] |}
  end.

(** The cleanup of the effect of lines 79-85, run when the page unmounts. *)
Definition unmount (s : Session) : Session :=
  {| page := page s;
     previousObjectURL := previousObjectURL s;
     liveURLs := revokePrevious s |}.

Definition onPage (f : PageState -> PageState) (s : Session) : Session :=
  {| page := f (page s);
     previousObjectURL := previousObjectURL s;
     liveURLs := liveURLs s |}.

(** The handler of each event.  The theme buttons are the entries of
    [sceneBackgrounds], in order (lines 489-493); a button that does not
    exist cannot be clicked. *)
Definition handle (e : Event) (s : Session) : Session :=
  match e with
  | fileChange file => handleFileChange file s
  | clickBackgroundMode mode => onPage (setBackgroundMode mode) s
  | inputSolidColor value => onPage (setSolidColor value) s
  | inputGradientStart value => onPage (setGradientStart value) s
  | inputGradientEnd value => onPage (setGradientEnd value) s
  | clickTheme button =>
      match nth_error sceneBackgrounds button with
      | Some (key, _) => onPage (setSceneKey key) s
      | None => s
      end
  | inputBrightness value => onPage (setBrightness value) s
  | inputContrast value => onPage (setContrast value) s
  | inputSaturation value => onPage (setSaturation value) s
  | inputBlur value => onPage (setBlur value) s
  | inputBadge value => onPage (setBadgeText value) s
  | inputHeadline value => onPage (setTagline value) s
  | inputDescription value => onPage (setDescription value) s
  | inputCta value => onPage (setCtaText value) s
  end.

(** The session after a sequence of events, the first one first. *)
Definition after (events : list Event) (s : Session) : Session :=
  fold_left (fun acc e => handle e acc) events s.

End Handlers.

(** What [handleCopyShare] does, in order. *)
Inductive ShareEffect : Type :=
| shareError (message : string)
| clipboardWrite
| setCopySuccess (flag : bool)
| scheduleCopyReset (ms : jsnum).

(** [handleCopyShare] (lines 338-350); [clipboard_ok] tells whether
    [navigator.clipboard.writeText] resolves. *)
Definition handleCopyShare (clipboard_ok : bool) (st : PageState) : list ShareEffect :=
  if noImage (imageSrc st)
  then [shareError "Upload an image to create a shareable preview."]
  else
    clipboardWrite
    :: (if clipboard_ok then [setCopySuccess true; scheduleCopyReset 3000]
        else [shareError "Copy failed. You can still download and share manually."]).

(** The Download button is disabled while exporting or without an image
    (line 634). *)
Definition downloadDisabled (exporting : bool) (st : PageState) : bool :=
  exporting || noImage (imageSrc st).

(** The name the download link gets (line 324). *)
Definition downloadName (st : PageState) : string :=
  if JS.truthy (imageName st) then imageName st else "product-shot.png".

(** An object URL generator for the examples: the URLs are numbered. *)
Definition numberedURL (f : File) (live : list string) : string :=
  ("blob:" ++ file_name f ++ "#" ++ decimal (JS.of_nat (List.length live)))%string.


(** *** Paths *)

(** The path of [drawRoundedRect]. *)
Definition roundedRectPath (x y width height radius : jsnum) : list Cmd :=
  [ BeginPath;
    MoveTo (x + radius) y;
    LineTo (x + width - radius) y;
    QuadraticCurveTo (x + width) y (x + width) (y + radius);
    LineTo (x + width) (y + height - radius);
    QuadraticCurveTo (x + width) (y + height) (x + width - radius) (y + height);
    LineTo (x + radius) (y + height);
    QuadraticCurveTo x (y + height) x (y + height - radius);
    LineTo x (y + radius);
    QuadraticCurveTo x y (x + radius) y;
    ClosePath ].

(** The points a path goes through or is pulled towards. *)
Definition path_points (cmds : list Cmd) : list (jsnum * jsnum) :=
  flat_map (fun cmd =>
              match cmd with
              | MoveTo x y | LineTo x y => [(x, y)]
              | QuadraticCurveTo cpx cpy x y => [(cpx, cpy); (x, y)]
              | _ => []
              end) cmds.

(** The control points of the curves of a path. *)
Definition control_points (cmds : list Cmd) : list (jsnum * jsnum) :=
  flat_map (fun cmd =>
              match cmd with
              | QuadraticCurveTo cpx cpy _ _ => [(cpx, cpy)]
              | _ => []
              end) cmds.

(** A point with finite coordinates inside the rectangle with corner
    [(x, y)], width [w] and height [h], edges included. *)
Definition inside (x y w h : Q) (p : jsnum * jsnum) : Prop :=
  match p with
  | (Num px, Num py) => (x <= px <= x + w) /\ (y <= py <= y + h)
  | _ => False
  end.


(** *** Outcomes of an export *)

Definition is_download (e : Effect) : bool :=
  match e with
  | clickDownloadLink _ => true
  | _ => false
  end.

(** The download, or the report of a failure. *)
Definition outcome (e : Effect) : bool := is_download e || reports_failure e.

(** The values given to [setExporting], in order. *)
Definition exporting_flags (trace : list Effect) : list bool :=
  flat_map (fun e => match e with setExporting flag => [flag] | _ => [] end) trace.

(** Everything an export needs is there: an image source that decodes, a 2D
    context, a known scene and an encoder. *)
Definition export_ready (browser : Browser) (st : PageState) : Prop :=
  exists src img,
    imageSrc st = Some src
    /\ JS.truthy src = true
    /\ decode browser src = Some img
    /\ has_context browser = true
    /\ backdrop_known st.

(** A browser in which no image decodes, otherwise as [sampleBrowser]. *)
Definition noDecodeBrowser : Browser :=
  {| text_width := text_width sampleBrowser;
     numberToString := numberToString sampleBrowser;
     decode := fun _ => None;
     has_context := true;
     encodes := true;
     typeError_message := typeError_message sampleBrowser |}.


(** *** The stack of saved states *)

(** Canvas code after which the stack of saved states is as before. *)
Definition keeps_stack {A : Type} (m : Canvas A) : Prop :=
  forall c, ctx_saved (snd (m c)) = ctx_saved c.

(** Canvas code after which the stack of saved states has lost its top. *)
Definition pops_stack {A : Type} (m : Canvas A) : Prop :=
  forall c, ctx_saved (snd (m c)) = tl (ctx_saved c).

(** The commands of the glass card and of the image block. *)
Definition cardCommands : list Cmd :=
  [Save; SetFillStyle (Color "rgba(255, 255, 255, 0.18)")]
  ++ roundedRectPath 80 80 1440 1040 48
  ++ [Fill; Restore].

Definition imageCommands (browser : Browser) (st : PageState) (img : Image) : list Cmd :=
  [Save;
   SetShadowColor "rgba(15, 23, 42, 0.22)";
   SetShadowBlur 55;
   SetShadowOffsetX 24;
   SetShadowOffsetY 32;
   SetFilter (exportFilter browser st);
   DrawImage img (imageX (placeImage img)) (imageY (placeImage img))
             (drawWidth (placeImage img)) (drawHeight (placeImage img));
   Restore].


(* ================================================================= *)
(** ** Strings: [split] and [join] *)

Lemma split_space_not_nil (s : string) : JS.split_space s <> [].
Proof.
  destruct s as [|c r]; simpl; [discriminate|].
  destruct (Ascii.eqb c " "); [discriminate|].
  destruct (JS.split_space r); discriminate.
Qed.

Lemma join_cons (sep w : string) (ws : list string) :
  ws <> [] -> JS.join sep (w :: ws) = (w ++ sep ++ JS.join sep ws)%string.
Proof.
  destruct ws; [congruence | reflexivity].
Qed.

Lemma append_assoc (a b c : string) : ((a ++ b) ++ c = a ++ (b ++ c))%string.
Proof.
  induction a; simpl; congruence.
Qed.

(** [text.split(' ').join(' ')] is [text]. *)
Lemma join_split_space (s : string) : JS.join " " (JS.split_space s) = s.
Proof.
  induction s as [|c r IH]; [reflexivity|].
  simpl. destruct (Ascii.eqb_spec c " "%char) as [->|Hc].
  - rewrite join_cons by apply split_space_not_nil.
    simpl. now rewrite IH.
  - pose proof (split_space_not_nil r) as Hne.
    destruct (JS.split_space r) as [|w ws]; [congruence|].
    destruct ws as [|w' ws'].
    + simpl in *. now rewrite IH.
    + rewrite join_cons by discriminate.
      rewrite join_cons in IH by discriminate.
      now rewrite <- IH.
Qed.

Lemma split_space_no_space (s : string) :
  has_space s = false -> JS.split_space s = [s].
Proof.
  unfold has_space. induction s as [|c r IH]; [reflexivity|].
  simpl. destruct (Ascii.eqb c " "); [discriminate|].
  simpl. intros H. now rewrite (IH H).
Qed.

Lemma split_space_all_spaces (s : string) :
  all_spaces s = true -> Forall (fun w => w = EmptyString) (JS.split_space s).
Proof.
  unfold all_spaces. induction s as [|c r IH]; simpl.
  - intros _. now constructor.
  - destruct (Ascii.eqb c " "); [|discriminate].
    simpl. intros H. constructor; auto.
Qed.

(** The words of a text are all non-empty exactly when the text is tidy. *)
Lemma tidy_from_words (s : string) :
  (tidy_from true s = true <-> Forall (fun w => JS.truthy w = true) (JS.split_space s))
  /\ (tidy_from false s = true
      <-> Forall (fun w => JS.truthy w = true) (tl (JS.split_space s))).
Proof.
  induction s as [|c r [IHt IHf]]; cbn [tidy_from JS.split_space].
  - split; split; intros H; try discriminate; try constructor.
    inversion H; subst. discriminate.
  - destruct (Ascii.eqb c " "%char); cbn [negb andb tl].
    + split; [|exact IHt].
      split; intros H; [discriminate|]. inversion H; subst. discriminate.
    + pose proof (split_space_not_nil r) as Hne.
      destruct (JS.split_space r) as [|w ws]; [congruence|]. cbn [tl] in *.
      split; [|exact IHf].
      rewrite IHf. split; intros H; [now constructor | now inversion H].
Qed.

Lemma tidy_words (text : string) :
  tidy text = true <-> Forall (fun w => JS.truthy w = true) (JS.split_space text).
Proof.
  exact (proj1 (tidy_from_words text)).
Qed.

Lemma join_snoc (sep w : string) (ws : list string) :
  ws <> [] -> JS.join sep (ws ++ [w]) = (JS.join sep ws ++ sep ++ w)%string.
Proof.
  induction ws as [|a ws IH]; [congruence|]. intros _.
  destruct ws as [|b ws].
  - reflexivity.
  - change ((a :: b :: ws) ++ [w]) with (a :: ((b :: ws) ++ [w])).
    rewrite join_cons by (destruct ws; discriminate).
    rewrite IH by discriminate.
    rewrite (join_cons sep a (b :: ws)) by discriminate.
    now rewrite !append_assoc.
Qed.

Lemma truthy_append (a b : string) :
  JS.truthy a = true -> JS.truthy (a ++ b) = true.
Proof.
  destruct a; [discriminate | reflexivity].
Qed.

Lemma truthy_join (ws : list string) :
  ws <> [] -> Forall (fun w => JS.truthy w = true) ws -> JS.truthy (JS.join " " ws) = true.
Proof.
  destruct ws as [|w ws]; [congruence|]. intros _ H.
  inversion H; subst.
  destruct ws; [assumption|].
  rewrite join_cons by discriminate. now apply truthy_append.
Qed.

(* ================================================================= *)
(** ** The canvas monad *)

Lemma logged_nil (c : Ctx) : logged c [] = c.
Proof.
  destruct c. unfold logged. simpl. now rewrite app_nil_r.
Qed.

Lemma logged_app (c : Ctx) (l1 l2 : list Cmd) :
  logged (logged c l1) l2 = logged c (l1 ++ l2).
Proof.
  unfold logged. simpl. now rewrite app_assoc.
Qed.

Lemma bind_run {A B : Type} (m : Canvas A) (k : A -> Canvas B) (c : Ctx) :
  bind m k c = k (fst (m c)) (snd (m c)).
Proof.
  unfold bind. now destruct (m c).
Qed.

Lemma emitted_logged {A : Type} (m : Canvas A) (c : Ctx) (a : A) (cmds : list Cmd) :
  m c = (a, logged c cmds) -> emitted m c = cmds.
Proof.
  intros H. unfold emitted. rewrite H. simpl.
  rewrite skipn_app, skipn_all, Nat.sub_diag. reflexivity.
Qed.

(* ================================================================= *)
(** ** [wrapText] *)

Lemma advance_snoc (lh : jsnum) (n : nat) (y : jsnum) :
  advance lh (S n) y = (advance lh n y + lh)%js.
Proof.
  revert y. induction n as [|n IH]; intros y; [reflexivity|].
  change (advance lh (S (S n)) y) with (advance lh (S n) (y + lh)).
  now rewrite IH.
Qed.

Lemma place_lines_app (x lh : jsnum) (l1 l2 : list string) (y : jsnum) :
  place_lines x lh (l1 ++ l2) y
  = place_lines x lh l1 y ++ place_lines x lh l2 (advance lh (List.length l1) y).
Proof.
  revert y. induction l1 as [|a l1 IH]; intros y; simpl; [reflexivity|].
  now rewrite IH.
Qed.

Lemma lineTexts_place_lines (x lh : jsnum) (ls : list string) (y : jsnum) :
  lineTexts (place_lines x lh ls y) = ls.
Proof.
  revert y. induction ls as [|l ls IH]; intros y; [reflexivity|].
  simpl. f_equal. apply IH.
Qed.

Section WrapText.

Variable browser : Browser.
Variables x maxWidth lineHeight : jsnum.

(** The loop threads the context: it draws the flushed lines one line
    height apart and leaves the rest of the context alone. *)
Lemma wrapText_loop_run (words : list string) :
  forall (line : string) (y : jsnum) (c : Ctx),
    wrapText_loop browser words x maxWidth lineHeight line y c
    = let r := loop_lines (exceeds browser (ctx_font c) maxWidth) words line in
      ((snd r, advance lineHeight (List.length (fst r)) y),
       logged c (place_lines x lineHeight (fst r) y)).
Proof.
  induction words as [|word rest IH]; intros line y c.
  - simpl. now rewrite logged_nil.
  - cbn [wrapText_loop loop_lines]. rewrite bind_run.
    unfold measureText. cbn [fst snd].
    set (testLine := if JS.truthy line then _ else word).
    change (JS.gt (text_width browser (ctx_font c) testLine) maxWidth)
      with (exceeds browser (ctx_font c) maxWidth testLine).
    destruct (exceeds browser (ctx_font c) maxWidth testLine && JS.truthy line).
    + rewrite bind_run. unfold emit. cbn [fst snd].
      rewrite IH. cbn [logged ctx_font].
      destruct (loop_lines (exceeds browser (ctx_font c) maxWidth) rest word) as [ls final].
      cbn [fst snd List.length advance place_lines]. rewrite logged_app. reflexivity.
    + apply IH.
Qed.

Lemma wrapText_run (text : string) (y : jsnum) (c : Ctx) :
  wrapText browser text x y maxWidth lineHeight c
  = let ls := wrapped_lines (exceeds browser (ctx_font c) maxWidth) text in
    (advance lineHeight (List.length ls) y, logged c (place_lines x lineHeight ls y)).
Proof.
  unfold wrapText, wrapped_lines. rewrite bind_run, wrapText_loop_run.
  cbn [fst snd].
  destruct (loop_lines (exceeds browser (ctx_font c) maxWidth) (JS.split_space text) EmptyString)
    as [ls final].
  cbn [fst snd]. destruct (JS.truthy final).
  - rewrite bind_run. unfold emit, ret. cbn [fst snd].
    rewrite logged_app, place_lines_app, List.length_app. cbn [List.length place_lines].
    rewrite Nat.add_1_r, advance_snoc. reflexivity.
  - unfold ret. now rewrite !app_nil_r.
Qed.

End WrapText.

Lemma loop_lines_empty_words (over : string -> bool) (words : list string) :
  Forall (fun w => w = EmptyString) words ->
  loop_lines over words EmptyString = ([], EmptyString).
Proof.
  induction 1 as [|w ws Hw _ IH]; [reflexivity|].
  subst w. cbn [loop_lines JS.truthy]. now rewrite andb_false_r.
Qed.

Lemma wrapped_lines_blank (over : string -> bool) (text : string) :
  all_spaces text = true -> wrapped_lines over text = [].
Proof.
  intros H. unfold wrapped_lines.
  now rewrite (loop_lines_empty_words over _ (split_space_all_spaces text H)).
Qed.

Lemma wrapped_lines_word (over : string -> bool) (word : string) :
  JS.truthy word = true -> has_space word = false -> wrapped_lines over word = [word].
Proof.
  intros Ht Hs. unfold wrapped_lines. rewrite (split_space_no_space word Hs).
  cbn [loop_lines JS.truthy]. rewrite andb_false_r. now rewrite Ht.
Qed.

(* ================================================================= *)
(** ** The loop of [wrapText] against the greedy grouping *)

Lemma join_app (sep : string) (l1 l2 : list string) :
  l1 <> [] -> l2 <> [] ->
  JS.join sep (l1 ++ l2) = (JS.join sep l1 ++ sep ++ JS.join sep l2)%string.
Proof.
  induction l1 as [|a l1 IH]; [congruence|]. intros _ H2.
  destruct l1 as [|b l1].
  - simpl app. now rewrite join_cons.
  - change ((a :: b :: l1) ++ l2) with (a :: ((b :: l1) ++ l2)).
    rewrite join_cons by discriminate.
    rewrite IH by (assumption || discriminate).
    rewrite (join_cons sep a (b :: l1)) by discriminate.
    now rewrite !append_assoc.
Qed.

Lemma join_concat (sep : string) (groups : list (list string)) :
  Forall (fun g => g <> []) groups ->
  JS.join sep (map (JS.join sep) groups) = JS.join sep (List.concat groups).
Proof.
  induction 1 as [|g gs Hg Hgs IH]; [reflexivity|].
  destruct gs as [|g' gs].
  - simpl. now rewrite app_nil_r.
  - inversion Hgs; subst.
    change (map (JS.join sep) (g :: g' :: gs))
      with (JS.join sep g :: map (JS.join sep) (g' :: gs)).
    rewrite join_cons by discriminate. rewrite IH.
    change (List.concat (g :: g' :: gs)) with (g ++ List.concat (g' :: gs)).
    rewrite join_app; [reflexivity | assumption |].
    simpl. destruct g'; [congruence | discriminate].
Qed.

Lemma greedy_groups_concat (over : string -> bool) (words : list string) :
  forall current, List.concat (greedy_groups over words current) = current ++ words.
Proof.
  induction words as [|w rest IH]; intros current.
  - destruct current; simpl; now rewrite ?app_nil_r.
  - destruct current as [|a cur]; cbn [greedy_groups].
    + now rewrite IH.
    + destruct (over _); cbn [List.concat]; rewrite IH.
      * reflexivity.
      * now rewrite <- app_assoc.
Qed.

Lemma greedy_groups_nonempty (over : string -> bool) (words : list string) :
  forall current, Forall (fun g => g <> []) (greedy_groups over words current).
Proof.
  induction words as [|w rest IH]; intros current.
  - destruct current; simpl; repeat constructor; discriminate.
  - destruct current as [|a cur]; cbn [greedy_groups]; [apply IH|].
    destruct (over _); [constructor; [discriminate | apply IH] | apply IH].
Qed.

(** On non-empty words the loop's string [line] is the current group joined by
    spaces, and the loop closes a line exactly where the grouping closes a
    group. *)
Lemma loop_lines_greedy (over : string -> bool) (words : list string) :
  Forall (fun w => JS.truthy w = true) words ->
  forall current,
    Forall (fun w => JS.truthy w = true) current ->
    let r := loop_lines over words (JS.join " " current) in
    fst r ++ (if JS.truthy (snd r) then [snd r] else [])
    = map (JS.join " ") (greedy_groups over words current).
Proof.
  induction 1 as [|w rest Hw Hrest IH]; intros current Hcur.
  - destruct current as [|a cur]; [reflexivity|].
    cbn [loop_lines fst snd greedy_groups map app].
    now rewrite truthy_join by (assumption || discriminate).
  - destruct current as [|a cur].
    + cbn [loop_lines greedy_groups JS.join String.concat JS.truthy].
      rewrite andb_false_r.
      apply (IH [w]). now repeat constructor.
    + cbn [loop_lines greedy_groups].
      rewrite truthy_join by (assumption || discriminate).
      rewrite andb_true_r, <- join_snoc by discriminate.
      destruct (over (JS.join " " ((a :: cur) ++ [w]))).
      * specialize (IH [w] ltac:(now repeat constructor)).
        change (JS.join " " [w]) with w in IH.
        destruct (loop_lines over rest w) as [ls final].
        cbn [fst snd map app] in *. now rewrite IH.
      * apply IH. apply Forall_app. split; [assumption | now repeat constructor].
Qed.

Lemma wrapped_lines_greedy (over : string -> bool) (text : string) :
  Forall (fun w => JS.truthy w = true) (JS.split_space text) ->
  wrapped_lines over text
  = map (JS.join " ") (greedy_groups over (JS.split_space text) []).
Proof.
  intros H. unfold wrapped_lines.
  pose proof (loop_lines_greedy over _ H [] (Forall_nil _)) as G.
  change (JS.join " " []) with EmptyString in G. cbv zeta in G.
  destruct (loop_lines over (JS.split_space text) EmptyString) as [ls final].
  exact G.
Qed.

(** The loop flushes a line only when it is not empty. *)
Lemma loop_lines_truthy (over : string -> bool) (words : list string) :
  forall line, Forall (fun l => JS.truthy l = true) (fst (loop_lines over words line)).
Proof.
  induction words as [|w rest IH]; intros line; cbn [loop_lines].
  - constructor.
  - destruct (over _ && JS.truthy line) eqn:E.
    + apply andb_true_iff in E. destruct E as [_ Hl].
      specialize (IH w). destruct (loop_lines over rest w) as [ls final].
      now constructor.
    + apply IH.
Qed.

Lemma wrapped_lines_truthy (over : string -> bool) (text : string) :
  Forall (fun l => JS.truthy l = true) (wrapped_lines over text).
Proof.
  unfold wrapped_lines.
  pose proof (loop_lines_truthy over (JS.split_space text) EmptyString) as H.
  destruct (loop_lines over (JS.split_space text) EmptyString) as [ls final].
  apply Forall_app. split; [exact H|].
  destruct (JS.truthy final) eqn:E; now repeat constructor.
Qed.

(** A group of two words or more was accepted as fitting when its last word
    joined it. *)
Lemma greedy_groups_fit (over : string -> bool) (words : list string) :
  forall current,
    ((2 <= List.length current)%nat -> over (JS.join " " current) = false) ->
    Forall (fun g => (2 <= List.length g)%nat -> over (JS.join " " g) = false)
           (greedy_groups over words current).
Proof.
  induction words as [|w rest IH]; intros current Hcur.
  - destruct current; simpl; now repeat constructor.
  - destruct current as [|a cur]; cbn [greedy_groups].
    + apply IH. cbn. lia.
    + destruct (over (JS.join " " ((a :: cur) ++ [w]))) eqn:E.
      * constructor; [exact Hcur|]. apply IH. cbn. lia.
      * apply IH. intros _. exact E.
Qed.

(* ================================================================= *)
(** ** Text layout: the claims *)

(** C1 (as amended).  For a tidy text (non-empty, with no leading, trailing
    or doubled space: its words, the pieces between single spaces, are all
    non-empty), whatever the font metrics and the maximal width: the lines
    [wrapText] draws are the greedy-fit groups of the words, each joined by
    single spaces, so there are as many lines as groups; the groups are the
    words in order; and the lines joined by single spaces are the text. *)
Theorem wrapText_content_preserved (browser : Browser) (text : string)
    (x y maxWidth lineHeight : jsnum) (c : Ctx) :
  tidy text = true ->
  let groups :=
    greedy_groups (exceeds browser (ctx_font c) maxWidth) (JS.split_space text) [] in
  let lines := lineTexts (emitted (wrapText browser text x y maxWidth lineHeight) c) in
  lines = map (JS.join " ") groups
  /\ List.length lines = List.length groups
  /\ List.concat groups = JS.split_space text
  /\ JS.join " " lines = text.
Proof.
  intros Htidy groups lines. apply tidy_words in Htidy.
  assert (Hlines : lines = map (JS.join " ") groups).
  { unfold lines.
    rewrite (emitted_logged _ _ _ _ (wrapText_run browser x maxWidth lineHeight text y c)).
    rewrite lineTexts_place_lines. now apply wrapped_lines_greedy. }
  split; [exact Hlines|]. split; [|split].
  - rewrite Hlines. apply length_map.
  - apply (greedy_groups_concat _ _ []).
  - rewrite Hlines, join_concat by apply greedy_groups_nonempty.
    unfold groups. rewrite (greedy_groups_concat _ _ []). apply join_split_space.
Qed.

(** The text [A B C] of section 8 of the specification, 3 units per character,
    maximal width 10: the lines are [A B] and [C]. *)
Lemma wrapText_content_preserved_witness :
  tidy "A B C" = true
  /\ lineTexts (emitted (wrapText sampleBrowser "A B C" 140 160 10 84) newCtx)
     = ["A B"; "C"].
Proof.
  split.
  - reflexivity.
  - apply (proj1 (wrapText_content_preserved sampleBrowser "A B C" 140 160 10 84 newCtx
                    eq_refl)).
Defined.

(** C1 (as stated) fails when a word is empty.  With every character 3 units
    wide and a maximal width of 10, the text [AAA  B] (two spaces) is split
    into the words [AAA], the empty word and [B]; the empty word forces a wrap
    and is lost: the two lines drawn are [AAA] and [B], which joined by a
    space do not give the text back. *)
Lemma wrapText_content_lost :
  let lines := lineTexts (emitted (wrapText sampleBrowser "AAA  B" 140 160 10 84) newCtx) in
  lines = ["AAA"; "B"] /\ JS.join " " lines <> "AAA  B".
Proof.
  vm_compute. split; [reflexivity | discriminate].
Qed.

(** X20.  No line drawn is empty, whatever the text, the metrics and the
    maximal width. *)
Lemma wrapText_no_empty_line (browser : Browser) (text : string)
    (x y maxWidth lineHeight : jsnum) (c : Ctx) :
  Forall (fun l => JS.truthy l = true)
         (lineTexts (emitted (wrapText browser text x y maxWidth lineHeight) c)).
Proof.
  rewrite (emitted_logged _ _ _ _ (wrapText_run browser x maxWidth lineHeight text y c)).
  rewrite lineTexts_place_lines. apply wrapped_lines_truthy.
Qed.

(** X21.  On a tidy text, a line wider than [maxWidth] is a single
    word of the text: words are never split, and only a word that does not
    fit by itself overflows. *)
Lemma wrapText_overflow_is_one_word (browser : Browser) (text : string)
    (x y maxWidth lineHeight : jsnum) (c : Ctx) :
  tidy text = true ->
  Forall (fun l => exceeds browser (ctx_font c) maxWidth l = true ->
                   In l (JS.split_space text))
         (lineTexts (emitted (wrapText browser text x y maxWidth lineHeight) c)).
Proof.
  intros Hwords. apply tidy_words in Hwords.
  rewrite (emitted_logged _ _ _ _ (wrapText_run browser x maxWidth lineHeight text y c)).
  rewrite lineTexts_place_lines, wrapped_lines_greedy by assumption.
  set (over := exceeds browser (ctx_font c) maxWidth).
  pose proof (greedy_groups_fit over (JS.split_space text) []
                ltac:(cbn; lia)) as Hfit.
  pose proof (greedy_groups_concat over (JS.split_space text) []) as Hcat.
  cbn [app] in Hcat.
  apply Forall_map. apply Forall_forall. intros g Hg Hover.
  rewrite Forall_forall in Hfit. specialize (Hfit g Hg).
  destruct g as [|w [|w' g]].
  - pose proof (greedy_groups_nonempty over (JS.split_space text) []) as Hne.
    rewrite Forall_forall in Hne. now destruct (Hne [] Hg).
  - rewrite <- Hcat. apply in_concat. exists [w]. split; [exact Hg | now left].
  - rewrite Hfit in Hover by (cbn; lia). discriminate.
Qed.

(** With every character 3 units wide and a maximal width of 10, the text
    [AAAAA B CC]: its first line overflows and is the word [AAAAA]. *)
Lemma wrapText_overflow_is_one_word_witness :
  tidy "AAAAA B CC" = true
  /\ Forall (fun l => exceeds sampleBrowser (ctx_font newCtx) 10 l = true ->
                      In l (JS.split_space "AAAAA B CC"))
            (lineTexts (emitted (wrapText sampleBrowser "AAAAA B CC" 140 160 10 84) newCtx)).
Proof.
  split; [reflexivity|].
  apply (wrapText_overflow_is_one_word sampleBrowser "AAAAA B CC" 140 160 10 84 newCtx).
  reflexivity.
Defined.

(** Only the space character separates words: a tab does not.  With every
    character 3 units wide and a maximal width of 10, the text made of [AAA],
    a tab and [BBB] is one word and is drawn as one line. *)
Example wrapText_tab_is_no_separator :
  let tab := String (ascii_of_nat 9) EmptyString in
  let text := ("AAA" ++ tab ++ "BBB")%string in
  lineTexts (emitted (wrapText sampleBrowser text 140 160 10 84) newCtx) = [text].
Proof.
  reflexivity.
Qed.

(** C7.  On the empty string [wrapText] returns [y] and leaves the context as
    it found it: no line is drawn. *)
Theorem wrapText_empty (browser : Browser) (x y maxWidth lineHeight : jsnum) (c : Ctx) :
  wrapText browser EmptyString x y maxWidth lineHeight c = (y, c)
  /\ emitted (wrapText browser EmptyString x y maxWidth lineHeight) c = [].
Proof.
  assert (H : wrapText browser EmptyString x y maxWidth lineHeight c = (y, logged c [])).
  { rewrite wrapText_run. now rewrite wrapped_lines_blank. }
  split.
  - now rewrite H, logged_nil.
  - exact (emitted_logged _ _ _ _ H).
Qed.



(** C10.  On a text made of space characters only [wrapText] returns [y] and
    leaves the context as it found it, as on the empty string. *)
Theorem wrapText_blank (browser : Browser) (text : string)
    (x y maxWidth lineHeight : jsnum) (c : Ctx) :
  all_spaces text = true ->
  text <> EmptyString ->
  wrapText browser text x y maxWidth lineHeight c = (y, c)
  /\ emitted (wrapText browser text x y maxWidth lineHeight) c = [].
Proof.
  intros Hs _.
  assert (H : wrapText browser text x y maxWidth lineHeight c = (y, logged c [])).
  { rewrite wrapText_run. now rewrite wrapped_lines_blank. }
  split.
  - now rewrite H, logged_nil.
  - exact (emitted_logged _ _ _ _ H).
Qed.

(** Three spaces. *)
Lemma wrapText_blank_witness :
  wrapText sampleBrowser "   " 140 160 10 84 newCtx = (160%js, newCtx)
  /\ emitted (wrapText sampleBrowser "   " 140 160 10 84) newCtx = [].
Proof.
  apply (wrapText_blank sampleBrowser "   " 140 160 10 84 newCtx);
    [reflexivity | discriminate].
Defined.

(* ================================================================= *)
(** ** The scene catalog *)

(** C9.  Every preset of [sceneBackgrounds] has its gradient stops in
    non-decreasing order of position, the first at 0 and the last at 1. *)
Theorem catalog_stops_well_formed :
  Forall (fun entry => well_formed_stops (gradientStops (snd entry))) sceneBackgrounds.
Proof.
  unfold sceneBackgrounds.
  repeat (apply Forall_cons || apply Forall_nil);
    (split; [| split; [exists 0 | exists 1]; split; reflexivity]);
    cbn [snd gradientStops map stop_position];
    repeat (apply Sorted.SSorted_cons || apply Sorted.SSorted_nil
            || apply Forall_cons || apply Forall_nil);
    unfold Qle; simpl; lia.
Qed.

(* ================================================================= *)
(** ** Export without an image *)

(** C5.  With no image source ([imageSrc] is [null], or empty),
    [handleDownload] does one thing: it sets the download error to
    [Upload an image first.]; no canvas is created, no context obtained,
    nothing drawn or encoded. *)
Theorem handleDownload_no_image (browser : Browser) (st : PageState) :
  noImage (imageSrc st) = true ->
  handleDownload browser st = [setDownloadError (Some "Upload an image first.")]
  /\ Forall (fun e => surface_work e = false) (handleDownload browser st).
Proof.
  intros H. unfold handleDownload. rewrite H.
  destruct (imageSrc st); (split; [reflexivity | now repeat constructor]).
Qed.

(** The page as mounted, before any upload. *)
Lemma handleDownload_no_image_witness :
  handleDownload sampleBrowser initialState
  = [setDownloadError (Some "Upload an image first.")].
Proof.
  apply (handleDownload_no_image sampleBrowser initialState). reflexivity.
Defined.

(* ================================================================= *)
(** ** Arithmetic of [jsnum] *)

Lemma Qltb_true (a b : Q) : JS.Qltb a b = true <-> a < b.
Proof.
  unfold JS.Qltb. rewrite negb_true_iff, <- not_true_iff_false, Qle_bool_iff.
  split; [apply Qnot_le_lt | apply Qlt_not_le].
Qed.

Lemma Qltb_false (a b : Q) : JS.Qltb a b = false <-> b <= a.
Proof.
  unfold JS.Qltb. now rewrite negb_false_iff, Qle_bool_iff.
Qed.

Lemma qmin_spec (a b : Q) :
  qmin a b <= a /\ qmin a b <= b /\ (qmin a b = a \/ qmin a b = b).
Proof.
  unfold qmin. destruct (JS.Qltb b a) eqn:E.
  - apply Qltb_true in E. repeat split; [now apply Qlt_le_weak | apply Qle_refl | now right].
  - apply Qltb_false in E. repeat split; [apply Qle_refl | assumption | now left].
Qed.

Lemma qmin_Qmin (a b : Q) : qmin a b == Qmin a b.
Proof.
  destruct (qmin_spec a b) as (Ha & Hb & Hab).
  apply Qle_antisym.
  - now apply Q.min_glb.
  - destruct Hab as [-> | ->]; [apply Q.le_min_l | apply Q.le_min_r].
Qed.

#[local] Instance qmin_comp : Proper (Qeq ==> Qeq ==> Qeq) qmin.
Proof.
  intros a a' Ha b b' Hb. unfold qmin, JS.Qltb.
  rewrite Ha, Hb. now destruct (Qle_bool a' b').
Qed.

Lemma min2_num (a b : Q) : JS.min2 (Num a) (Num b) = Num (qmin a b).
Proof.
  unfold JS.min2, JS.gt, qmin. now destruct (JS.Qltb b a).
Qed.

Lemma div_by_size (a : Q) (n : nat) :
  0 < a ->
  (Num a / JS.of_nat n)%js
  = match n with
    | O => PInf
    | S _ => JS.num (a / inject_Z (Z.of_nat n))
    end.
Proof.
  intros Ha. destruct n as [|n].
  - cbn. unfold JS.signed.
    assert (E : Qeq_bool a 0 = false).
    { apply not_true_iff_false. intros H. apply Qeq_bool_iff in H.
      rewrite H in Ha. now apply Qlt_irrefl in Ha. }
    rewrite E. apply Qltb_true in Ha. now rewrite Ha.
  - reflexivity.
Qed.

Lemma size_positive (n : nat) : (0 < n)%nat -> 0 < inject_Z (Z.of_nat n).
Proof.
  intros H. change 0 with (inject_Z 0). rewrite <- Zlt_Qlt. lia.
Qed.

Lemma quotient_positive (a b : Q) : 0 < a -> 0 < b -> 0 < a / b.
Proof.
  intros Ha Hb. apply Qlt_shift_div_l; [assumption|]. now rewrite Qmult_0_l.
Qed.

(* ================================================================= *)
(** ** Image fitting *)

Lemma available_region :
  availableImageWidth = 712%js /\ availableImageHeight = 920%js
  /\ textColumnWidth = 608%js.
Proof.
  now vm_compute.
Qed.

(** The edges of the region, from the constants of the export. *)
Lemma image_region :
  (padding + textColumnWidth)%js = Num imageRegionLeft
  /\ (downloadWidth - padding)%js = Num imageRegionRight
  /\ padding = Num imageRegionTop
  /\ (downloadHeight - padding)%js = Num imageRegionBottom
  /\ (Num imageRegionRight - Num imageRegionLeft)%js = availableImageWidth
  /\ (Num imageRegionBottom - Num imageRegionTop)%js = availableImageHeight.
Proof.
  now vm_compute.
Qed.

(** The scale is a positive rational, the least of the cap and of the ratios
    that exist. *)
Lemma scale_value (img : Image) :
  exists s,
    scale (placeImage img) = Num s
    /\ 0 < s
    /\ s <= 12 # 10
    /\ ((0 < img_width img)%nat -> s <= 712 / inject_Z (Z.of_nat (img_width img)))
    /\ ((0 < img_height img)%nat -> s <= 920 / inject_Z (Z.of_nat (img_height img)))
    /\ ((0 < img_width img)%nat -> (0 < img_height img)%nat ->
        s == Qmin (Qmin (712 / inject_Z (Z.of_nat (img_width img)))
                        (920 / inject_Z (Z.of_nat (img_height img))))
                  (12 # 10)).
Proof.
  destruct img as [src w h]. cbn [placeImage scale img_width img_height].
  destruct available_region as (-> & -> & _).
  rewrite !div_by_size by reflexivity. unfold JS.Math_min3.
  assert (Hcap : Qred (12 # 10) == 12 # 10) by apply Qred_correct.
  destruct w as [|w], h as [|h].
  - exists (Qred (12 # 10)). cbn [JS.min2 JS.gt JS.num].
    repeat split; intros; try lia. rewrite Hcap. apply Qle_refl.
  - set (b := 920 / inject_Z (Z.of_nat (S h))).
    assert (Hb : 0 < b) by (apply quotient_positive; [reflexivity | apply size_positive; lia]).
    exists (qmin (Qred b) (Qred (12 # 10))).
    change (JS.min2 PInf (JS.num b)) with (JS.num b). unfold JS.num. rewrite min2_num.
    split; [reflexivity|].
    destruct (qmin_spec b (12 # 10)) as (H1 & H2 & H3).
    rewrite !Qred_correct.
    repeat split; intros; try assumption; try lia.
    destruct H3 as [-> | ->]; [assumption | reflexivity].
  - set (a := 712 / inject_Z (Z.of_nat (S w))).
    assert (Ha : 0 < a) by (apply quotient_positive; [reflexivity | apply size_positive; lia]).
    exists (qmin (Qred a) (Qred (12 # 10))).
    change (JS.min2 (JS.num a) PInf) with (JS.num a). unfold JS.num. rewrite min2_num.
    split; [reflexivity|].
    destruct (qmin_spec a (12 # 10)) as (H1 & H2 & H3).
    rewrite !Qred_correct.
    repeat split; intros; try assumption; try lia.
    destruct H3 as [-> | ->]; [assumption | reflexivity].
  - set (a := 712 / inject_Z (Z.of_nat (S w))).
    set (b := 920 / inject_Z (Z.of_nat (S h))).
    assert (Ha : 0 < a) by (apply quotient_positive; [reflexivity | apply size_positive; lia]).
    assert (Hb : 0 < b) by (apply quotient_positive; [reflexivity | apply size_positive; lia]).
    exists (qmin (qmin (Qred a) (Qred b)) (Qred (12 # 10))).
    unfold JS.num. rewrite !min2_num.
    split; [reflexivity|].
    destruct (qmin_spec a b) as (H1 & H2 & H3).
    destruct (qmin_spec (qmin a b) (12 # 10)) as (H4 & H5 & H6).
    assert (Hm : 0 < qmin a b) by (destruct H3 as [-> | ->]; assumption).
    rewrite !Qred_correct.
    repeat split; try assumption.
    + destruct H6 as [-> | ->]; [assumption | reflexivity].
    + intros _. now apply Qle_trans with (qmin a b).
    + intros _. now apply Qle_trans with (qmin a b).
    + intros _ _. rewrite !qmin_Qmin. reflexivity.
Qed.

Lemma scaled_size_fits (n : nat) (s a : Q) :
  0 < a -> 0 < s ->
  ((0 < n)%nat -> s <= a / inject_Z (Z.of_nat n)) ->
  0 <= inject_Z (Z.of_nat n) * s <= a.
Proof.
  intros Ha Hs Hle. destruct (Nat.eq_dec n 0) as [-> | Hn].
  - change (inject_Z (Z.of_nat 0)) with 0. rewrite Qmult_0_l.
    split; [apply Qle_refl | now apply Qlt_le_weak].
  - assert (Hpos : 0 < inject_Z (Z.of_nat n)) by (apply size_positive; lia).
    split.
    + apply Qmult_le_0_compat; now apply Qlt_le_weak.
    + specialize (Hle ltac:(lia)).
      apply Qle_trans with (inject_Z (Z.of_nat n) * (a / inject_Z (Z.of_nat n))).
      * rewrite !(Qmult_comm (inject_Z (Z.of_nat n))).
        apply Qmult_le_compat_r; [assumption | now apply Qlt_le_weak].
      * rewrite Qmult_div_r; [apply Qle_refl|].
        intros E. rewrite E in Hpos. now apply Qlt_irrefl in Hpos.
Qed.

(** The placement in terms of the scale: every coordinate is a finite
    number. *)
Lemma placeImage_finite (img : Image) (s : Q) :
  scale (placeImage img) = Num s ->
  let w := inject_Z (Z.of_nat (img_width img)) in
  let h := inject_Z (Z.of_nat (img_height img)) in
  drawWidth (placeImage img) = Num (Qred (w * s))
  /\ drawHeight (placeImage img) = Num (Qred (h * s))
  /\ imageX (placeImage img) = Num (Qred (1460 - Qred (w * s)))
  /\ imageY (placeImage img)
     = Num (Qred (140 + Qred (Qred (920 - Qred (h * s)) / 2))).
Proof.
  intros Hs w h. destruct available_region as (_ & Hah & _).
  cbn [placeImage scale drawWidth drawHeight imageX imageY] in *.
  rewrite Hs, Hah. repeat split.
Qed.


(** The example of section 8 of the specification, in the export's own
    region: a 2000 x 1000 image is scaled by 712/2000. *)
Example image_fit_example :
  placeImage (mkImage "photo" 2000 1000)
  = {| scale := Num (89 # 250); drawWidth := 712; drawHeight := 356;
       imageX := 748; imageY := 422 |}.
Proof.
  reflexivity.
Qed.

(* ================================================================= *)
(** ** What canvas code issues *)

Create HintDb canvas.

Lemma issues_ret {A : Type} (P : Cmd -> Prop) (a : A) : issues P (ret a).
Proof.
  intros c. exists []. now rewrite app_nil_r.
Qed.

Lemma issues_emit (P : Cmd -> Prop) (cmd : Cmd) : P cmd -> issues P (emit cmd).
Proof.
  intros H c. exists [cmd]. split; [reflexivity | now constructor].
Qed.

Lemma issues_setFont (P : Cmd -> Prop) (f : string) : P (SetFont f) -> issues P (setFont f).
Proof.
  intros H c. exists [SetFont f]. split; [reflexivity | now constructor].
Qed.

Lemma issues_save (P : Cmd -> Prop) : P Save -> issues P save.
Proof.
  intros H c. exists [Save]. split; [reflexivity | now constructor].
Qed.

Lemma issues_restore (P : Cmd -> Prop) : P Restore -> issues P restore.
Proof.
  intros H c. exists [Restore]. split; [reflexivity | now constructor].
Qed.

Lemma issues_measureText (P : Cmd -> Prop) (browser : Browser) (t : string) :
  issues P (measureText browser t).
Proof.
  intros c. exists []. now rewrite app_nil_r.
Qed.

Lemma issues_bind {A B : Type} (P : Cmd -> Prop) (m : Canvas A) (k : A -> Canvas B) :
  issues P m -> (forall a, issues P (k a)) -> issues P (bind m k).
Proof.
  intros Hm Hk c. rewrite bind_run.
  destruct (Hm c) as (l1 & E1 & F1).
  destruct (Hk (fst (m c)) (snd (m c))) as (l2 & E2 & F2).
  exists (l1 ++ l2). split.
  - now rewrite E2, E1, app_assoc.
  - now apply Forall_app.
Qed.

Lemma issues_forEach {A : Type} (P : Cmd -> Prop) (f : A -> Canvas unit) (l : list A) :
  (forall a, issues P (f a)) -> issues P (forEach f l).
Proof.
  intros Hf. induction l as [|a l IH]; cbn [forEach].
  - apply issues_ret.
  - apply issues_bind; [apply Hf | intros _; exact IH].
Qed.

#[local] Hint Resolve issues_ret issues_measureText : canvas.
#[local] Hint Extern 1 (issues _ (emit _)) => apply issues_emit; reflexivity : canvas.
#[local] Hint Extern 1 (issues _ (setFont _)) => apply issues_setFont; reflexivity : canvas.
#[local] Hint Extern 1 (issues _ save) => apply issues_save; reflexivity : canvas.
#[local] Hint Extern 1 (issues _ restore) => apply issues_restore; reflexivity : canvas.
#[local] Hint Extern 2 (issues _ (bind _ _)) => apply issues_bind; [| intro] : canvas.
#[local] Hint Extern 2 (issues _ (forEach _ _)) => apply issues_forEach; intro : canvas.
#[local] Hint Extern 3 (issues _ (if ?b then _ else _)) => destruct b : canvas.

Lemma drawRoundedRect_no_image (x y width height radius : jsnum) :
  issues no_image (drawRoundedRect x y width height radius).
Proof.
  unfold drawRoundedRect. auto 20 with canvas.
Qed.

Lemma place_lines_no_image (x lh : jsnum) (ls : list string) :
  forall y, Forall no_image (place_lines x lh ls y).
Proof.
  induction ls as [|l ls IH]; intros y; constructor; [reflexivity | apply IH].
Qed.

Lemma wrapText_no_image (browser : Browser) (text : string) (x y maxWidth lineHeight : jsnum) :
  issues no_image (wrapText browser text x y maxWidth lineHeight).
Proof.
  intros c. rewrite wrapText_run. cbn [snd logged ctx_log].
  eexists. split; [reflexivity | apply place_lines_no_image].
Qed.

#[local] Hint Resolve drawRoundedRect_no_image wrapText_no_image : canvas.

Lemma paintCard_no_image : issues no_image paintCard.
Proof.
  unfold paintCard. auto 20 with canvas.
Qed.

Lemma paintCopy_no_image (browser : Browser) (st : PageState) :
  issues no_image (paintCopy browser st).
Proof.
  unfold paintCopy. auto 40 with canvas.
Qed.

Lemma paintBackdrop_no_image (st : PageState) (backdrop : Canvas unit) :
  paintBackdrop st = Some backdrop -> issues no_image backdrop.
Proof.
  unfold paintBackdrop. destruct (backgroundMode st).
  - intros [= <-]. auto 10 with canvas.
  - intros [= <-]. auto 10 with canvas.
  - destruct (lookup_scene (sceneKey st) sceneBackgrounds); [|discriminate].
    intros [= <-]. auto 20 with canvas.
Qed.

Lemma paintBackdrop_known (st : PageState) :
  backdrop_known st -> exists backdrop, paintBackdrop st = Some backdrop.
Proof.
  unfold backdrop_known, paintBackdrop. intros H.
  destruct (backgroundMode st); try (eexists; reflexivity).
  destruct (H eq_refl) as (sc & ->). eexists; reflexivity.
Qed.

(** The image block issues eight commands, the image draw among them, and
    leaves the font and the stack of saved fonts as they were. *)
Lemma paintImage_run (browser : Browser) (st : PageState) (img : Image) (c : Ctx) :
  paintImage browser st img c
  = (tt, logged c [Save;
                   SetShadowColor "rgba(15, 23, 42, 0.22)";
                   SetShadowBlur 55;
                   SetShadowOffsetX 24;
                   SetShadowOffsetY 32;
                   SetFilter (exportFilter browser st);
                   DrawImage img (imageX (placeImage img)) (imageY (placeImage img))
                             (drawWidth (placeImage img)) (drawHeight (placeImage img));
                   Restore]).
Proof.
  unfold paintImage, bind, emit, save, restore, logged. cbn.
  now rewrite <- !app_assoc.
Qed.

(* ================================================================= *)
(** ** The filter chain *)

(** C2.  Whatever the four parameters, the filter of the live preview and the
    filter assigned to the export context are the same string, namely the
    chain brightness, contrast, saturate, blur in this order; and it is set
    on the context just before the export draws the image. *)
Theorem filter_chain_shared (browser : Browser) (st : PageState) (img : Image) (c : Ctx) :
  filterValue browser st = exportFilter browser st
  /\ filterValue browser st
     = filterChainCss browser
         [brightnessFn (brightness st); contrastFn (contrast st);
          saturateFn (saturation st); blurFn (blur st)]
  /\ emitted (paintImage browser st img) c
     = [Save;
        SetShadowColor "rgba(15, 23, 42, 0.22)";
        SetShadowBlur 55;
        SetShadowOffsetX 24;
        SetShadowOffsetY 32;
        SetFilter (filterValue browser st);
        DrawImage img (imageX (placeImage img)) (imageY (placeImage img))
                  (drawWidth (placeImage img)) (drawHeight (placeImage img));
        Restore].
Proof.
  split; [reflexivity|]. split.
  - unfold filterValue, filterChainCss, str. cbn [map filterFunctionCss].
    rewrite !join_cons by discriminate. cbn [JS.join String.concat].
    now rewrite !append_assoc.
  - exact (emitted_logged _ _ _ _ (paintImage_run browser st img c)).
Qed.

Lemma Forall_app_intro {A : Type} (P : A -> Prop) (l1 l2 : list A) :
  Forall P l1 -> Forall P l2 -> Forall P (l1 ++ l2).
Proof.
  intros H1 H2. apply Forall_app. now split.
Qed.

(** A property of every element of a list written out with [::] and [++]. *)
Ltac forall_list :=
  repeat first [ apply Forall_nil
               | apply Forall_cons; [first [exact I | reflexivity | idtac] |]
               | apply Forall_app_intro ].

(** Membership in a list written out with [::]. *)
Ltac in_list := repeat first [ left; reflexivity | right ].

(** The whole drawing: commands that are not image draws, then the image
    block. *)
Lemma compose_run (browser : Browser) (st : PageState) (img : Image) :
  backdrop_known st ->
  exists drawing before,
    compose browser st img = Some drawing
    /\ Forall no_image before
    /\ run drawing newCtx
       = before ++ [Save;
                    SetShadowColor "rgba(15, 23, 42, 0.22)";
                    SetShadowBlur 55;
                    SetShadowOffsetX 24;
                    SetShadowOffsetY 32;
                    SetFilter (exportFilter browser st);
                    DrawImage img (imageX (placeImage img)) (imageY (placeImage img))
                              (drawWidth (placeImage img)) (drawHeight (placeImage img));
                    Restore].
Proof.
  intros Hk. destruct (paintBackdrop_known st Hk) as (backdrop & Hb).
  unfold compose. rewrite Hb. eexists. 
  pose proof (paintBackdrop_no_image st backdrop Hb) as I1.
  destruct (I1 newCtx) as (l1 & E1 & F1).
  destruct (paintCard_no_image (snd (backdrop newCtx))) as (l2 & E2 & F2).
  destruct (paintCopy_no_image browser st (snd (paintCard (snd (backdrop newCtx)))))
    as (l3 & E3 & F3).
  exists (l1 ++ l2 ++ l3). split; [reflexivity|]. split.
  - now repeat apply Forall_app_intro.
  - unfold run. rewrite !bind_run, paintImage_run. cbn [snd logged ctx_log].
    rewrite E3, E2, E1. cbn [newCtx ctx_log app]. now rewrite <- !app_assoc.
Qed.

Lemma placeImage_degenerate (img : Image) :
  img_width img = O \/ img_height img = O ->
  drawWidth (placeImage img) = 0%js \/ drawHeight (placeImage img) = 0%js.
Proof.
  destruct (scale_value img) as (s & Hs & _).
  destruct (placeImage_finite img s Hs) as (Hdw & Hdh & _).
  rewrite Hdw, Hdh.
  intros [-> | ->]; [left | right]; now destruct s.
Qed.

(* ================================================================= *)
(** ** Export of an image without width or height *)

(** C6 (as stated) fails: the export does not skip the image.  For an image
    decoded with width 0 and height 0, [handleDownload] still calls
    [drawImage], with a destination of width 0 and height 0 whose corner is
    at (1460, 600). *)
Lemma degenerate_image_still_drawn :
  filter draws_image (handleDownload emptyImageBrowser uploadedState)
  = [draw (DrawImage (mkImage "blob:photo" 0 0) 1460 600 0 0)].
Proof.
  now vm_compute.
Qed.

(** C6 (as amended).  When the image has no width or no height and
    everything else succeeds (the source decodes, the context and the encoder
    are available, the scene key is in the catalog): the placement is made of
    finite numbers and has width 0 or height 0; [handleDownload] issues the
    [drawImage] call with that placement; every [drawImage] it issues has a
    destination without width or without height; it reports no failure and
    goes on to the download. *)
Theorem degenerate_image_export (browser : Browser) (st : PageState)
    (src : string) (img : Image) :
  imageSrc st = Some src ->
  JS.truthy src = true ->
  decode browser src = Some img ->
  has_context browser = true ->
  encodes browser = true ->
  backdrop_known st ->
  img_width img = O \/ img_height img = O ->
  let p := placeImage img in
  let trace := handleDownload browser st in
  (drawWidth p = 0%js \/ drawHeight p = 0%js)
  /\ (exists s dw dh ix iy,
        scale p = Num s /\ drawWidth p = Num dw /\ drawHeight p = Num dh
        /\ imageX p = Num ix /\ imageY p = Num iy)
  /\ In (draw (DrawImage img (imageX p) (imageY p) (drawWidth p) (drawHeight p))) trace
  /\ Forall (fun e => match e with draw cmd => empty_destination cmd | _ => True end) trace
  /\ Forall (fun e => reports_failure e = false) trace
  /\ In (clickDownloadLink (if JS.truthy (imageName st) then imageName st
                            else "product-shot.png")) trace.
Proof.
  intros Hsrc Htruthy Hdec Hctx Henc Hknown Hzero p trace.
  pose proof (placeImage_degenerate img Hzero) as Hempty.
  split; [exact Hempty|]. split.
  { destruct (scale_value img) as (s & Hs & _).
    destruct (placeImage_finite img s Hs) as (Hdw & Hdh & Hix & Hiy).
    repeat eexists; eassumption. }
  destruct (compose_run browser st img Hknown) as (drawing & before & Hc & Hb & Hrun).
  assert (Htrace : trace =
    [setDownloadError None; setExporting true; awaitFontsReady; loadImage src]
    ++ ([createCanvas downloadWidth downloadHeight; getContext]
        ++ map draw (run drawing newCtx)
        ++ [toBlob "image/png" (JS.num (95 # 100))]
        ++ [clickDownloadLink (if JS.truthy (imageName st) then imageName st
                               else "product-shot.png");
            scheduleRevoke 4000])
    ++ [setExporting false]).
  { unfold trace, handleDownload, noImage.
    now rewrite Hsrc, Htruthy, Hdec, Hctx, Henc, Hc. }
  rewrite Htrace, Hrun, map_app. clear Htrace Hrun.
  split; [|split; [|split]].
  - apply in_or_app. right. apply in_or_app. left.
    apply in_or_app. right. apply in_or_app. left.
    apply in_or_app. right. unfold map. in_list.
  - forall_list.
    + apply Forall_map. revert Hb. apply Forall_impl.
      intros cmd. now destruct cmd.
    + exact Hempty.
  - forall_list. apply Forall_map. now apply Forall_forall.
  - apply in_or_app. right. apply in_or_app. left.
    apply in_or_app. right. apply in_or_app. right.
    apply in_or_app. right. in_list.
Qed.

(** The uploaded page, with an image decoded to 0 x 0. *)
Lemma degenerate_image_export_witness :
  Forall (fun e => reports_failure e = false)
         (handleDownload emptyImageBrowser uploadedState).
Proof.
  apply (degenerate_image_export emptyImageBrowser uploadedState "blob:photo"
           (mkImage "blob:photo" 0 0));
    try reflexivity.
  - intros H. discriminate H.
  - now left.
Defined.

(* ================================================================= *)
(** ** Backdrop: preview against export *)

Lemma fold_addColorStop (stops : list GradientStop) :
  forall acc,
    fold_left (fun g stop => addColorStop g (Num (stop_position stop)) (stop_color stop))
              stops (Linear 0 0 downloadWidth downloadHeight acc)
    = Linear 0 0 downloadWidth downloadHeight
        (acc ++ map (fun stop => (Num (stop_position stop), stop_color stop)) stops).
Proof.
  induction stops as [|s stops IH]; intros acc; cbn [fold_left map].
  - now rewrite app_nil_r.
  - cbn [addColorStop]. rewrite IH. now rewrite <- app_assoc.
Qed.

Lemma forEach_overlays_run (ovs : list Overlay) :
  forall c,
    forEach (fun o =>
      let overlayGradient :=
        Radial (downloadWidth * Num (ov_x o)) (downloadHeight * Num (ov_y o)) 0
               (downloadWidth * Num (ov_x o)) (downloadHeight * Num (ov_y o))
               (JS.Math_max downloadWidth downloadHeight * Num (ov_radius o)) [] in
      let overlayGradient := addColorStop overlayGradient 0 (ov_color o) in
      let overlayGradient := addColorStop overlayGradient 1 "rgba(255,255,255,0)" in
      emit (SetFillStyle (Gradient overlayGradient)) ;;
      emit (FillRect 0 0 downloadWidth downloadHeight))%canvas ovs c
    = (tt, logged c (flat_map fillOfLayer (map OverlayLayer ovs))).
Proof.
  induction ovs as [|o ovs IH]; intros c; cbn [forEach map flat_map].
  - unfold ret. now rewrite logged_nil.
  - rewrite bind_run, IH. unfold bind, emit. cbn [fst snd].
    rewrite !logged_app. reflexivity.
Qed.

(** The export paints the backdrop of the specification. *)
Lemma paintBackdrop_paints (st : PageState) :
  backdrop_known st ->
  exists backdrop,
    paintBackdrop st = Some backdrop
    /\ canvas_paints (run backdrop newCtx) (specified_stack st).
Proof.
  unfold backdrop_known, paintBackdrop, specified_stack, canvas_paints.
  intros H. destruct (backgroundMode st).
  - eexists. split; reflexivity.
  - eexists. split; reflexivity.
  - destruct (H eq_refl) as (sc & ->). eexists. split; [reflexivity|].
    unfold run. rewrite !bind_run, forEach_overlays_run.
    rewrite (fold_addColorStop (gradientStops sc) []).
    reflexivity.
Qed.

(** The preview shows the same base and the preset's overlays, the first
    listed on top. *)
Lemma previewBackground_shows (browser : Browser) (st : PageState) :
  backdrop_known st ->
  exists value,
    previewBackground browser st = Some value
    /\ css_shows browser value (preview_stack st).
Proof.
  unfold backdrop_known, previewBackground, preview_stack, specified_stack, css_shows.
  intros H. destruct (backgroundMode st).
  - eexists. split; reflexivity.
  - eexists. split; reflexivity.
  - destruct (H eq_refl) as (sc & ->). eexists. split; [reflexivity|].
    unfold sceneLayers. cbn [map rev]. rewrite map_rev, rev_involutive, map_map.
    reflexivity.
Qed.

Lemma preview_stack_permutation (st : PageState) :
  hd_error (preview_stack st) = hd_error (specified_stack st)
  /\ Permutation (preview_stack st) (specified_stack st).
Proof.
  unfold preview_stack, specified_stack. destruct (backgroundMode st); auto.
  destruct (lookup_scene (sceneKey st) sceneBackgrounds); auto.
  split; [reflexivity|]. constructor. symmetry. apply Permutation_rev.
Qed.


(** The rounded percentage depends on the value of the rational only. *)
Lemma percent_equal (browser : Browser) (a b : Q) :
  a == b -> percent browser a = percent browser b.
Proof.
  intros H. unfold percent.
  replace (Num a * JS.of_Z 100)%js with (Num b * JS.of_Z 100)%js; [reflexivity|].
  unfold JS.of_Z, JS.mul, JS.num. f_equal. apply Qred_complete. now rewrite H.
Qed.

Lemma scaled_equal (k a b : Q) :
  ~ k == 0 -> (Num k * Num a)%js = (Num k * Num b)%js -> a == b.
Proof.
  intros Hk H.
  assert (E : Qred (k * a) = Qred (k * b)) by (unfold JS.mul, JS.num in H; congruence).
  apply (Qmult_inj_l a b k Hk).
  transitivity (Qred (k * a)); [symmetry; apply Qred_correct|].
  rewrite E. apply Qred_correct.
Qed.

(** Two overlays that the export paints alike are written alike by the
    preview. *)
Lemma overlay_fill_css (browser : Browser) (o o' : Overlay) :
  fillOfLayer (OverlayLayer o) = fillOfLayer (OverlayLayer o') ->
  overlayCss browser o = overlayCss browser o'.
Proof.
  unfold fillOfLayer. intros H.
  assert (Hx : (1600 * Num (ov_x o))%js = (1600 * Num (ov_x o'))%js) by congruence.
  assert (Hy : (1200 * Num (ov_y o))%js = (1200 * Num (ov_y o'))%js) by congruence.
  assert (Hr : (1600 * Num (ov_radius o))%js = (1600 * Num (ov_radius o'))%js)
    by congruence.
  assert (Hc : ov_color o = ov_color o') by congruence.
  apply scaled_equal in Hx; [|discriminate].
  apply scaled_equal in Hy; [|discriminate].
  apply scaled_equal in Hr; [|discriminate].
  unfold overlayCss.
  now rewrite (percent_equal browser _ _ Hx), (percent_equal browser _ _ Hy),
    (percent_equal browser _ _ Hr), Hc.
Qed.

Lemma scene_fill_stops (stops stops' : list GradientStop) :
  fillOfLayer (SceneLayer stops) = fillOfLayer (SceneLayer stops') -> stops = stops'.
Proof.
  unfold fillOfLayer. intros H.
  assert (E : map (fun stop => (Num (stop_position stop), stop_color stop)) stops
              = map (fun stop => (Num (stop_position stop), stop_color stop)) stops')
    by congruence.
  clear H. revert stops' E.
  induction stops as [|[c p] stops IH]; intros [|[c' p'] stops'] E;
    try discriminate E; [reflexivity|].
  cbn [map stop_position stop_color] in E.
  f_equal; [congruence | apply IH; congruence].
Qed.

(** On the scene [neon] no stack of layers at all is both what the export
    paints and what the preview shows. *)
Lemma neon_no_common_stack (backdrop : Canvas unit) (value : string) (stack : list Layer) :
  paintBackdrop neonState = Some backdrop ->
  previewBackground sampleBrowser neonState = Some value ->
  canvas_paints (run backdrop newCtx) stack ->
  ~ css_shows sampleBrowser value stack.
Proof.
  intros Hb Hv Hc Hs.
  destruct (paintBackdrop_paints neonState) as (backdrop' & Hb' & Hc').
  { intros _. eexists. reflexivity. }
  destruct (previewBackground_shows sampleBrowser neonState) as (value' & Hv' & Hs').
  { intros _. eexists. reflexivity. }
  assert (backdrop' = backdrop) by congruence. subst backdrop'.
  assert (value' = value) by congruence. subst value'.
  unfold canvas_paints, css_shows in *. rewrite Hc' in Hc. rewrite Hs' in Hs.
  clear Hb Hv Hb' Hv' Hc' Hs'.
  change (specified_stack neonState)
    with [ SceneLayer [ mkStop "#0f172a" 0; mkStop "#1e293b" (45 # 100);
                        mkStop "#4c1d95" 1 ];
           OverlayLayer (mkOverlay (75 # 100) (25 # 100) (5 # 10) "rgba(16, 185, 129, 0.32)");
           OverlayLayer (mkOverlay (2 # 10) (8 # 10) (65 # 100) "rgba(59, 130, 246, 0.25)") ]
    in Hc.
  change (preview_stack neonState)
    with [ SceneLayer [ mkStop "#0f172a" 0; mkStop "#1e293b" (45 # 100);
                        mkStop "#4c1d95" 1 ];
           OverlayLayer (mkOverlay (2 # 10) (8 # 10) (65 # 100) "rgba(59, 130, 246, 0.25)");
           OverlayLayer (mkOverlay (75 # 100) (25 # 100) (5 # 10) "rgba(16, 185, 129, 0.32)") ]
    in Hs.
  destruct stack as [|l1 [|l2 [|l3 [|l4 rest]]]]; try discriminate Hc.
  cbn [flat_map app] in Hc.
  assert (H1 : fillOfLayer (SceneLayer [ mkStop "#0f172a" 0; mkStop "#1e293b" (45 # 100);
                                         mkStop "#4c1d95" 1 ]) = fillOfLayer l1)
    by (unfold fillOfLayer in *; cbn [app] in Hc; congruence).
  assert (H2 : fillOfLayer (OverlayLayer (mkOverlay (75 # 100) (25 # 100) (5 # 10)
                                            "rgba(16, 185, 129, 0.32)")) = fillOfLayer l2)
    by (unfold fillOfLayer in *; cbn [app] in Hc; congruence).
  assert (H3 : fillOfLayer (OverlayLayer (mkOverlay (2 # 10) (8 # 10) (65 # 100)
                                            "rgba(59, 130, 246, 0.25)")) = fillOfLayer l3)
    by (unfold fillOfLayer in *; cbn [app] in Hc; congruence).
  clear Hc.
  destruct l3 as [c3 | a3 b3 | s3 | o3]; try discriminate H3.
  destruct l2 as [c2 | a2 b2 | s2 | o2]; try discriminate H2.
  destruct l1 as [c1 | a1 b1 | s1 | o1]; try discriminate H1.
  apply scene_fill_stops in H1. subst s1.
  apply (overlay_fill_css sampleBrowser) in H2, H3.
  cbn [map rev app cssOfLayer] in Hs. rewrite <- H2, <- H3 in Hs.
  vm_compute in Hs. discriminate Hs.
Qed.



(** X23.  The style object of [backgroundStyle] carries the value of
    [previewBackground], except in gradient mode, where it spells out the
    positions 0% and 100% of the two colours. *)
Lemma backgroundStyle_value (browser : Browser) (st : PageState) :
  match backgroundMode st with
  | solid =>
      backgroundStyle browser st = Some (background (solidColor st))
      /\ previewBackground browser st = Some (solidColor st)
  | scene =>
      match previewBackground browser st with
      | Some value => backgroundStyle browser st = Some (backgroundImage value)
      | None => backgroundStyle browser st = None
      end
  | gradient =>
      backgroundStyle browser st
      = Some (background ("linear-gradient(130deg, " ++ gradientStart st ++ " 0%, "
                          ++ gradientEnd st ++ " 100%)")%string)
  end.
Proof.
  unfold backgroundStyle, previewBackground. destruct (backgroundMode st).
  - reflexivity.
  - now split.
  - now destruct (lookup_scene (sceneKey st) sceneBackgrounds).
Qed.



(** X24.  The preview, the style object and the export fail together: each
    of [previewBackground], [backgroundStyle] and the backdrop of
    [handleDownload] has no value exactly when the mode is [scene] and the
    scene key is not a key of the catalog. *)
Theorem backdrop_fails_together (browser : Browser) (st : PageState) :
  let unknown :=
    backgroundMode st = scene
    /\ lookup_scene (sceneKey st) sceneBackgrounds = None in
  (previewBackground browser st = None <-> unknown)
  /\ (backgroundStyle browser st = None <-> unknown)
  /\ (paintBackdrop st = None <-> unknown)
  /\ (unknown <-> ~ backdrop_known st).
Proof.
  cbv zeta. unfold previewBackground, backgroundStyle, paintBackdrop, backdrop_known.
  assert (Hknown : forall sc : SceneConfig,
             ~ ~ (scene = scene -> exists sc', Some sc = Some sc')).
  { intros sc H. apply H. intros _. now exists sc. }
  assert (Hunknown : ~ (scene = scene -> exists sc', @None SceneConfig = Some sc')).
  { intros H. destruct (H eq_refl) as (sc' & Hsc). discriminate Hsc. }
  destruct (backgroundMode st);
    [| | destruct (lookup_scene (sceneKey st) sceneBackgrounds) as [sc|]];
    repeat split; intros; try discriminate; try assumption;
    try match goal with
        | H : _ /\ _ |- _ => destruct H; discriminate
        | H : ~ (_ -> _) |- _ => exfalso; apply H; intros; discriminate
        | H : ~ (_ -> _) |- _ => exfalso; now apply (Hknown sc)
        | |- ~ _ => intros ?
        end;
    try match goal with
        | H : _ /\ _ |- _ => destruct H; discriminate
        | H : _ -> exists _, None = Some _ |- _ => now apply Hunknown
        end.
Qed.

(* ================================================================= *)
(** ** More on text layout *)

(** X1.  [wrapText] adds nothing to the context but [fillText] calls: the
    lines it draws are all at [x], the first at [y] and each next one
    [lineHeight] lower; the value returned is [y] advanced once per line; the
    font and the saved states are left alone. *)
Theorem wrapText_line_positions (browser : Browser) (text : string)
    (x y maxWidth lineHeight : jsnum) (c : Ctx) :
  let lines := lineTexts (emitted (wrapText browser text x y maxWidth lineHeight) c) in
  wrapText browser text x y maxWidth lineHeight c
  = (advance lineHeight (List.length lines) y,
     logged c (place_lines x lineHeight lines y)).
Proof.
  cbv zeta.
  rewrite (emitted_logged _ _ _ _ (wrapText_run browser x maxWidth lineHeight text y c)).
  rewrite lineTexts_place_lines. apply wrapText_run.
Qed.

(** The first group of the grouping starts with the current one. *)
Lemma greedy_groups_head (over : string -> bool) (words : list string) :
  forall a current,
    exists more rest,
      greedy_groups over words (a :: current) = ((a :: current) ++ more) :: rest.
Proof.
  induction words as [|w words IH]; intros a current.
  - exists [], []. cbn. now rewrite app_nil_r.
  - cbn [greedy_groups]. destruct (over _).
    + exists [], (greedy_groups over words [w]). now rewrite app_nil_r.
    + destruct (IH a (current ++ [w])) as (more & rest & E).
      exists (w :: more), rest.
      change ((a :: current) ++ [w]) with (a :: (current ++ [w])).
      rewrite E. cbn [app]. now rewrite <- app_assoc.
Qed.

(** A group is closed only when the first word of the next group would not
    fit in it. *)
Lemma greedy_groups_breaks (over : string -> bool) (words : list string) :
  forall current before g w tail behind,
    greedy_groups over words current = before ++ g :: (w :: tail) :: behind ->
    over (JS.join " " (g ++ [w])) = true.
Proof.
  induction words as [|w0 words IH]; intros current before g w tail behind E.
  - destruct current; cbn in E; destruct before as [|? [|? ?]]; discriminate E.
  - destruct current as [|a cur]; cbn [greedy_groups] in E.
    + exact (IH _ _ _ _ _ _ E).
    + destruct (over (JS.join " " ((a :: cur) ++ [w0]))) eqn:Hover.
      * destruct before as [|b before]; cbn [app] in E.
        -- injection E as Eg Erest. subst g.
           destruct (greedy_groups_head over words w0 []) as (more & rest & Eh).
           rewrite Eh in Erest. injection Erest as Ew _. now subst w.
        -- injection E as _ Erest. exact (IH _ _ _ _ _ _ Erest).
      * exact (IH _ _ _ _ _ _ E).
Qed.

(** X2.  Line breaks are forced: on a tidy text, where one line ends and the
    next begins, the ended line with a space and the first word [w] of the
    next line added is wider than [maxWidth]. *)
Theorem wrapText_breaks_are_forced (browser : Browser) (text : string)
    (x y maxWidth lineHeight : jsnum) (c : Ctx) (before behind : list string)
    (l l' : string) :
  tidy text = true ->
  lineTexts (emitted (wrapText browser text x y maxWidth lineHeight) c)
  = before ++ l :: l' :: behind ->
  exists w tail,
    In w (JS.split_space text)
    /\ l' = JS.join " " (w :: tail)
    /\ exceeds browser (ctx_font c) maxWidth (l ++ " " ++ w)%string = true.
Proof.
  intros Htidy E. apply tidy_words in Htidy.
  rewrite (emitted_logged _ _ _ _ (wrapText_run browser x maxWidth lineHeight text y c)) in E.
  rewrite lineTexts_place_lines, wrapped_lines_greedy in E by assumption.
  set (over := exceeds browser (ctx_font c) maxWidth) in *.
  apply map_eq_app in E. destruct E as (gbefore & grest & Eg & _ & E).
  apply map_eq_cons in E. destruct E as (g & grest' & -> & <- & E).
  apply map_eq_cons in E. destruct E as (g' & gbehind & -> & <- & _).
  pose proof (greedy_groups_nonempty over (JS.split_space text) []) as Hne.
  rewrite Eg in Hne. apply Forall_app in Hne. destruct Hne as [_ Hne].
  inversion Hne as [|? ? Hg Hne']; subst. inversion Hne' as [|? ? Hg' _]; subst.
  destruct g' as [|w tail]; [congruence|].
  exists w, tail. split; [|split; [reflexivity|]].
  - pose proof (greedy_groups_concat over (JS.split_space text) []) as Hcat.
    cbn [app] in Hcat. rewrite <- Hcat, Eg.
    apply in_concat. exists (w :: tail). split; [|now left].
    apply in_or_app. right. right. now left.
  - rewrite <- join_snoc by assumption.
    exact (greedy_groups_breaks over _ _ _ _ _ _ _ Eg).
Qed.

(** The text [A B C] of section 8 of the specification: the line [A B] is
    followed by [C], and [A B C] is 12 units wide against 10. *)
Lemma wrapText_breaks_are_forced_witness :
  exists w tail,
    In w (JS.split_space "A B C")
    /\ "C" = JS.join " " (w :: tail)
    /\ exceeds sampleBrowser (ctx_font newCtx) 10 ("A B" ++ " " ++ w)%string = true.
Proof.
  apply (wrapText_breaks_are_forced sampleBrowser "A B C" 140 160 10 84 newCtx
           [] [] "A B" "C"); reflexivity.
Defined.

(** When nothing is too wide the grouping is one group. *)
Lemma greedy_groups_all_fit (over : string -> bool) (words : list string) :
  forall current,
    (forall n, over (JS.join " " (current ++ firstn n words)) = false) ->
    current ++ words <> [] ->
    greedy_groups over words current = [current ++ words].
Proof.
  induction words as [|w words IH]; intros current Hfit Hne.
  - rewrite app_nil_r in *. destruct current; [congruence | reflexivity].
  - destruct current as [|a cur]; cbn [greedy_groups].
    + apply (IH [w]); [|discriminate].
      intros n. exact (Hfit (S n)).
    + pose proof (Hfit 1%nat) as H1. cbn [firstn] in H1. rewrite H1.
      rewrite (IH ((a :: cur) ++ [w])).
      * now rewrite <- app_assoc.
      * intros n. rewrite <- app_assoc. exact (Hfit (S n)).
      * destruct cur; discriminate.
Qed.

(** X3.  A tidy text of which no beginning (its first [n] words joined by
    spaces) is wider than [maxWidth] is drawn as one line, the text itself,
    at [(x, y)], and [y + lineHeight] is returned. *)
Theorem wrapText_fits_on_one_line (browser : Browser) (text : string)
    (x y maxWidth lineHeight : jsnum) (c : Ctx) :
  tidy text = true ->
  (forall n, exceeds browser (ctx_font c) maxWidth
               (JS.join " " (firstn n (JS.split_space text))) = false) ->
  wrapText browser text x y maxWidth lineHeight c
  = ((y + lineHeight)%js, logged c [FillText text x y]).
Proof.
  intros Htidy Hfit. apply tidy_words in Htidy.
  rewrite wrapText_run, wrapped_lines_greedy by assumption.
  rewrite (greedy_groups_all_fit _ _ [] Hfit (split_space_not_nil text)).
  cbn [app map List.length advance place_lines]. now rewrite join_split_space.
Qed.

(** [Shop Now], 24 units wide, against a maximal width of 608. *)
Lemma wrapText_fits_on_one_line_witness :
  wrapText sampleBrowser "Shop Now" 140 160 608 84 newCtx
  = (244%js, logged newCtx [FillText "Shop Now" 140 160]).
Proof.
  apply (wrapText_fits_on_one_line sampleBrowser "Shop Now" 140 160 608 84 newCtx).
  - reflexivity.
  - intros [|[|[|n]]]; reflexivity.
Defined.

(* ================================================================= *)
(** ** More on image fitting *)




(* ================================================================= *)
(** ** Rounded rectangles *)

Lemma drawRoundedRect_run (x y width height radius : jsnum) (c : Ctx) :
  drawRoundedRect x y width height radius c
  = (tt, logged c (roundedRectPath x y width height radius)).
Proof.
  unfold drawRoundedRect, roundedRectPath, bind, emit, logged. cbn [ctx_font ctx_saved ctx_log].
  now rewrite <- !app_assoc.
Qed.



(* ================================================================= *)
(** ** The outcomes of [handleDownload] *)

Lemma backdrop_known_dec (st : PageState) :
  backdrop_known st \/ (~ backdrop_known st /\ paintBackdrop st = None).
Proof.
  unfold backdrop_known, paintBackdrop.
  destruct (backgroundMode st); try (left; discriminate).
  destruct (lookup_scene (sceneKey st) sceneBackgrounds) as [sc|].
  - left. intros _. now exists sc.
  - right. split; [|reflexivity]. intros H. now destruct (H eq_refl).
Qed.

(** The six ways an export can go. *)
Lemma handleDownload_cases (browser : Browser) (st : PageState) :
  let trace := handleDownload browser st in
  let start src :=
    [setDownloadError None; setExporting true; awaitFontsReady; loadImage src] in
  let canvas := [createCanvas downloadWidth downloadHeight; getContext] in
  (noImage (imageSrc st) = true
   /\ trace = [setDownloadError (Some "Upload an image first.")])
  \/ (exists src,
        imageSrc st = Some src /\ JS.truthy src = true
        /\ decode browser src = None
        /\ trace = start src ++ [setDownloadError (Some "Failed to export image.")]
                   ++ [setExporting false])
  \/ (exists src img,
        imageSrc st = Some src /\ JS.truthy src = true
        /\ decode browser src = Some img
        /\ has_context browser = false
        /\ trace = start src
                   ++ (canvas ++ [setDownloadError (Some "Could not get canvas context.")])
                   ++ [setExporting false])
  \/ (exists src img,
        imageSrc st = Some src /\ JS.truthy src = true
        /\ decode browser src = Some img
        /\ has_context browser = true
        /\ ~ backdrop_known st
        /\ trace = start src
                   ++ (canvas ++ [setDownloadError (Some (typeError_message browser))])
                   ++ [setExporting false])
  \/ (exists src img drawing,
        imageSrc st = Some src /\ JS.truthy src = true
        /\ decode browser src = Some img
        /\ has_context browser = true
        /\ backdrop_known st
        /\ compose browser st img = Some drawing
        /\ encodes browser = false
        /\ trace = start src
                   ++ (canvas
                       ++ map draw (run drawing newCtx)
                       ++ [toBlob "image/png" (JS.num (95 # 100))]
                       ++ [setDownloadError (Some "Unable to export image.")])
                   ++ [setExporting false])
  \/ (exists src img drawing,
        imageSrc st = Some src /\ JS.truthy src = true
        /\ decode browser src = Some img
        /\ has_context browser = true
        /\ backdrop_known st
        /\ compose browser st img = Some drawing
        /\ encodes browser = true
        /\ trace = start src
                   ++ (canvas
                       ++ map draw (run drawing newCtx)
                       ++ [toBlob "image/png" (JS.num (95 # 100))]
                       ++ [clickDownloadLink (downloadName st); scheduleRevoke 4000])
                   ++ [setExporting false]).
Proof.
  cbv zeta. unfold handleDownload.
  destruct (imageSrc st) as [src|] eqn:Hsrc; [|left; now split].
  cbn [noImage]. destruct (JS.truthy src) eqn:Ht; cbn [negb]; [|left; now split].
  right.
  destruct (decode browser src) as [img|] eqn:Hd;
    [|left; exists src; now repeat split].
  right.
  destruct (has_context browser) eqn:Hc; cbn [negb];
    [|left; exists src, img; now repeat split].
  right.
  destruct (backdrop_known_dec st) as [Hk | [Hk Hb]].
  - right. destruct (compose_run browser st img Hk) as (drawing & before & Hcomp & _).
    rewrite Hcomp.
    destruct (encodes browser) eqn:He; [right | left];
      exists src, img, drawing; now repeat split.
  - left. exists src, img. unfold compose. rewrite Hb. now repeat split.
Qed.

Lemma filter_outcome_draw (cmds : list Cmd) : filter outcome (map draw cmds) = [].
Proof.
  induction cmds as [|cmd cmds IH]; [reflexivity | exact IH].
Qed.

Lemma exporting_flags_draw (cmds : list Cmd) : exporting_flags (map draw cmds) = [].
Proof.
  induction cmds as [|cmd cmds IH]; [reflexivity | exact IH].
Qed.

Lemma exporting_flags_app (a b : list Effect) :
  exporting_flags (a ++ b) = exporting_flags a ++ exporting_flags b.
Proof.
  apply flat_map_app.
Qed.

(** The cases of [handleDownload_cases], with the trace named [E]. *)
Ltac export_cases browser st :=
  destruct (handleDownload_cases browser st)
    as [(Hn & E)
       | [(src & Hs & Ht & Hd & E)
       | [(src & img & Hs & Ht & Hd & Hc & E)
       | [(src & img & Hs & Ht & Hd & Hc & Hk & E)
       | [(src & img & drawing & Hs & Ht & Hd & Hc & Hk & Hcomp & He & E)
       | (src & img & drawing & Hs & Ht & Hd & Hc & Hk & Hcomp & He & E)]]]]].

(** X7.  Every call of [handleDownload] has exactly one outcome: either the
    download link is clicked or one failure is reported, never both and never
    neither.  Unless the image is missing, [exporting] is switched on once and
    off once, and switching it off is the last thing done. *)
Theorem export_has_one_outcome (browser : Browser) (st : PageState) :
  let trace := handleDownload browser st in
  List.length (filter outcome trace) = 1%nat
  /\ exporting_flags trace = (if noImage (imageSrc st) then [] else [true; false])
  /\ (noImage (imageSrc st) = false -> last trace awaitFontsReady = setExporting false).
Proof.
  cbv zeta. export_cases browser st;
    try (assert (Hn : noImage (imageSrc st) = false)
           by (rewrite Hs; cbn [noImage]; now rewrite Ht));
    rewrite Hn, E;
    repeat rewrite ?filter_app, ?exporting_flags_app, ?filter_outcome_draw,
      ?exporting_flags_draw;
    (split; [reflexivity|]); (split; [reflexivity|]);
    try discriminate;
    intros _; rewrite !app_assoc; apply last_last.
Qed.

Lemma In_map_draw (e : Effect) (cmds : list Cmd) :
  In e (map draw cmds) -> exists cmd, e = draw cmd.
Proof.
  intros H. apply in_map_iff in H. destruct H as (cmd & <- & _). now exists cmd.
Qed.

(** Membership in a trace written out with [++], [::] and [map draw]. *)
Ltac in_trace H :=
  repeat match type of H with
         | In _ (_ ++ _) => apply in_app_or in H; destruct H as [H | H]
         | In _ (map draw _) =>
             apply In_map_draw in H; destruct H as (? & H); discriminate H
         | In _ (_ :: _) => destruct H as [H | H]; [try discriminate H|]
         | In _ [] => destruct H
         end.

(** Finding an element in a trace written out with [++] and [::]. *)
Ltac find_in :=
  match goal with
  | |- In _ (_ ++ _) => apply in_or_app; (solve [left; find_in] || (right; find_in))
  | |- In _ (_ :: _) => (left; reflexivity) || (right; find_in)
  end.

(** X8.  The download happens exactly when everything the export needs is
    there and the encoder delivers; the file is then named [imageName], or
    [product-shot.png] should that name be empty. *)
Theorem export_downloads_iff (browser : Browser) (st : PageState) (name : string) :
  In (clickDownloadLink name) (handleDownload browser st)
  <-> (export_ready browser st /\ encodes browser = true /\ name = downloadName st).
Proof.
  split.
  - intros H. export_cases browser st; rewrite E in H; in_trace H.
    injection H as <-.
    split; [|now split]. exists src, img. now repeat split.
  - intros ((src0 & img0 & Hs0 & Ht0 & Hd0 & Hc0 & Hk0) & He0 & ->).
    export_cases browser st;
      try (rewrite Hs0 in Hn; cbn [noImage] in Hn; rewrite Ht0 in Hn; discriminate Hn);
      try congruence.
    rewrite E. find_in.
Qed.

(** The uploaded page in the example browser. *)
Lemma export_downloads_iff_witness :
  In (clickDownloadLink "photo-designed.png") (handleDownload sampleBrowser uploadedState).
Proof.
  apply (proj2 (export_downloads_iff sampleBrowser uploadedState "photo-designed.png")).
  split; [|split; reflexivity].
  exists "blob:photo", (mkImage "blob:photo" 2000 1000).
  repeat split. intros H. discriminate H.
Defined.

(** X9.  Something is drawn, and the canvas is encoded, exactly when
    everything the export needs is there: after a missing image, a failed
    decoding, a missing context or an unknown scene key the canvas is left
    untouched. *)
Theorem export_draws_iff (browser : Browser) (st : PageState) :
  ((exists cmd, In (draw cmd) (handleDownload browser st)) <-> export_ready browser st)
  /\ ((exists type quality, In (toBlob type quality) (handleDownload browser st))
      <-> export_ready browser st).
Proof.
  assert (Hready : forall src img,
             imageSrc st = Some src -> JS.truthy src = true ->
             decode browser src = Some img -> has_context browser = true ->
             backdrop_known st -> export_ready browser st).
  { intros src img ? ? ? ? ?. exists src, img. now repeat split. }
  split; split.
  - intros (cmd & H).
    export_cases browser st; rewrite E in H; try (now in_trace H); eauto.
  - intros (src0 & img0 & Hs0 & Ht0 & Hd0 & Hc0 & Hk0).
    destruct (compose_run browser st img0 Hk0) as (drawing0 & before & Hcomp0 & _ & Hrun).
    exists Restore.
    export_cases browser st;
      try (rewrite Hs0 in Hn; cbn [noImage] in Hn; rewrite Ht0 in Hn; discriminate Hn);
      try congruence;
      assert (src = src0) by congruence; subst src;
      assert (img = img0) by congruence; subst img;
      assert (drawing = drawing0) by congruence; subst drawing;
      rewrite E, Hrun, map_app; cbn [map]; find_in.
  - intros (type & quality & H).
    export_cases browser st; rewrite E in H; try (now in_trace H); eauto.
  - intros (src0 & img0 & Hs0 & Ht0 & Hd0 & Hc0 & Hk0).
    exists "image/png", (JS.num (95 # 100)).
    export_cases browser st;
      try (rewrite Hs0 in Hn; cbn [noImage] in Hn; rewrite Ht0 in Hn; discriminate Hn);
      try congruence;
      rewrite E; find_in.
Qed.

(** X10.  Which failure is reported: a reported message is the one of the
    first step that failed, in the order image, decoding, context, scene key,
    encoding. *)
Theorem export_failure_cause (browser : Browser) (st : PageState) (message : string) :
  In (setDownloadError (Some message)) (handleDownload browser st) ->
  (message = "Upload an image first." /\ noImage (imageSrc st) = true)
  \/ (noImage (imageSrc st) = false
      /\ exists src,
           imageSrc st = Some src
           /\ ((message = "Failed to export image." /\ decode browser src = None)
               \/ exists img,
                    decode browser src = Some img
                    /\ ((message = "Could not get canvas context."
                         /\ has_context browser = false)
                        \/ (message = typeError_message browser
                            /\ has_context browser = true /\ ~ backdrop_known st)
                        \/ (message = "Unable to export image."
                            /\ has_context browser = true /\ backdrop_known st
                            /\ encodes browser = false)))).
Proof.
  intros H.
  export_cases browser st; rewrite E in H; in_trace H; injection H as <-;
    try (left; now split);
    (right; split; [rewrite Hs; cbn [noImage]; now rewrite Ht|]);
    exists src; (split; [assumption|]).
  - left. now split.
  - right. exists img. split; [assumption|]. left. now split.
  - right. exists img. split; [assumption|]. right. left. now repeat split.
  - right. exists img. split; [assumption|]. right. right. now repeat split.
Qed.

(** The uploaded page in a browser that decodes nothing. *)
Lemma export_failure_cause_witness :
  In (setDownloadError (Some "Failed to export image."))
     (handleDownload noDecodeBrowser uploadedState)
  /\ exists src,
       imageSrc uploadedState = Some src
       /\ decode noDecodeBrowser src = None.
Proof.
  assert (H : In (setDownloadError (Some "Failed to export image."))
                 (handleDownload noDecodeBrowser uploadedState))
    by (cbn; tauto).
  split; [exact H|].
  destruct (export_failure_cause noDecodeBrowser uploadedState
              "Failed to export image." H)
    as [[E _] | (_ & src & Hs & _)]; [discriminate E|].
  exists src. split; [exact Hs | reflexivity].
Defined.

(* ================================================================= *)
(** ** The order of the drawing *)

Lemma paintCard_run (c : Ctx) : paintCard c = (tt, logged c cardCommands).
Proof.
  unfold paintCard. rewrite !bind_run, drawRoundedRect_run.
  unfold save, emit, restore, logged, cardCommands.
  cbn [fst snd ctx_font ctx_saved ctx_log tl].
  change (downloadWidth - 160)%js with 1440%js.
  change (downloadHeight - 160)%js with 1040%js.
  rewrite <- !app_assoc. cbn [app]. reflexivity.
Qed.

(** X11.  The export draws in a fixed order: the backdrop of the
    specification first, then the glass card, then the copy, and last the
    image, which is the only image drawn; nothing is painted over it. *)
Theorem export_draws_in_order (browser : Browser) (st : PageState) (img : Image) :
  backdrop_known st ->
  exists drawing copy,
    compose browser st img = Some drawing
    /\ run drawing newCtx
       = flat_map fillOfLayer (specified_stack st)
         ++ cardCommands ++ copy ++ imageCommands browser st img
    /\ Forall no_image (flat_map fillOfLayer (specified_stack st) ++ cardCommands ++ copy).
Proof.
  intros Hk.
  destruct (paintBackdrop_paints st Hk) as (backdrop & Hb & Hpaints).
  unfold canvas_paints, run in Hpaints.
  pose proof (paintBackdrop_no_image st backdrop Hb newCtx) as (l1 & E1 & F1).
  rewrite Hpaints in E1. cbn [newCtx ctx_log app] in E1. subst l1.
  destruct (paintCopy_no_image browser st (snd (paintCard (snd (backdrop newCtx)))))
    as (copy & E3 & F3).
  exists (backdrop ;; paintCard ;; paintCopy browser st ;; paintImage browser st img)%canvas,
    copy.
  split; [unfold compose; now rewrite Hb|]. split.
  - unfold run. rewrite !bind_run, paintImage_run. cbn [snd logged ctx_log].
    rewrite E3, paintCard_run. cbn [snd logged ctx_log]. rewrite Hpaints.
    unfold imageCommands. now rewrite <- !app_assoc.
  - apply Forall_app_intro; [exact F1|]. apply Forall_app_intro; [|exact F3].
    unfold cardCommands, roundedRectPath. cbn [app]. forall_list.
Qed.

(** The scene [neon]. *)
Lemma export_draws_in_order_witness :
  exists drawing copy,
    compose sampleBrowser neonState (mkImage "blob:photo" 2000 1000) = Some drawing
    /\ run drawing newCtx
       = flat_map fillOfLayer (specified_stack neonState)
         ++ cardCommands ++ copy
         ++ imageCommands sampleBrowser neonState (mkImage "blob:photo" 2000 1000).
Proof.
  destruct (export_draws_in_order sampleBrowser neonState (mkImage "blob:photo" 2000 1000))
    as (drawing & copy & H1 & H2 & _).
  - intros _. eexists. reflexivity.
  - exists drawing, copy. split; assumption.
Defined.

(* ================================================================= *)
(** ** Saved states *)

Lemma keeps_ret {A : Type} (a : A) : keeps_stack (ret a).
Proof. intros c. reflexivity. Qed.

Lemma keeps_emit (cmd : Cmd) : keeps_stack (emit cmd).
Proof. intros c. reflexivity. Qed.

Lemma keeps_setFont (f : string) : keeps_stack (setFont f).
Proof. intros c. reflexivity. Qed.

Lemma keeps_measureText (browser : Browser) (t : string) :
  keeps_stack (measureText browser t).
Proof. intros c. reflexivity. Qed.

Lemma keeps_drawRoundedRect (x y width height radius : jsnum) :
  keeps_stack (drawRoundedRect x y width height radius).
Proof. intros c. now rewrite drawRoundedRect_run. Qed.

Lemma keeps_wrapText (browser : Browser) (text : string) (x y maxWidth lineHeight : jsnum) :
  keeps_stack (wrapText browser text x y maxWidth lineHeight).
Proof. intros c. now rewrite wrapText_run. Qed.

Lemma keeps_bind {A B : Type} (m : Canvas A) (k : A -> Canvas B) :
  keeps_stack m -> (forall a, keeps_stack (k a)) -> keeps_stack (bind m k).
Proof.
  intros Hm Hk c. rewrite bind_run, Hk. apply Hm.
Qed.

Lemma keeps_forEach {A : Type} (f : A -> Canvas unit) (l : list A) :
  (forall a, keeps_stack (f a)) -> keeps_stack (forEach f l).
Proof.
  intros Hf. induction l as [|a l IH]; cbn [forEach].
  - apply keeps_ret.
  - apply keeps_bind; [apply Hf | intros _; exact IH].
Qed.

Lemma pops_restore : pops_stack restore.
Proof. intros c. reflexivity. Qed.

Lemma pops_after {A B : Type} (m : Canvas A) (k : A -> Canvas B) :
  keeps_stack m -> (forall a, pops_stack (k a)) -> pops_stack (bind m k).
Proof.
  intros Hm Hk c. rewrite bind_run, Hk. now rewrite Hm.
Qed.

Lemma pops_then {A B : Type} (m : Canvas A) (k : A -> Canvas B) :
  pops_stack m -> (forall a, keeps_stack (k a)) -> pops_stack (bind m k).
Proof.
  intros Hm Hk c. rewrite bind_run, Hk. apply Hm.
Qed.

Lemma keeps_save {B : Type} (k : unit -> Canvas B) :
  (forall a, pops_stack (k a)) -> keeps_stack (bind save k).
Proof.
  intros Hk c. rewrite bind_run, Hk. reflexivity.
Qed.

#[local] Hint Resolve keeps_ret keeps_emit keeps_setFont keeps_measureText
  keeps_drawRoundedRect keeps_wrapText pops_restore : canvas.
#[local] Hint Extern 1 (keeps_stack (bind save _)) => apply keeps_save; intro : canvas.
#[local] Hint Extern 2 (keeps_stack (bind _ _)) => apply keeps_bind; [| intro] : canvas.
#[local] Hint Extern 2 (keeps_stack (forEach _ _)) => apply keeps_forEach; intro : canvas.
#[local] Hint Extern 3 (keeps_stack (if ?b then _ else _)) => destruct b : canvas.
#[local] Hint Extern 1 (pops_stack (bind restore _)) =>
  apply pops_then; [apply pops_restore | intro] : canvas.
#[local] Hint Extern 2 (pops_stack (bind _ _)) => apply pops_after; [| intro] : canvas.

(** X12.  The export balances [save] and [restore]: whatever the stack of
    saved states when the drawing starts, it is the same when the drawing
    ends; so are the stacks after the backdrop, the card, the copy and the
    image taken one by one. *)
Theorem export_balances_save_restore (browser : Browser) (st : PageState) (img : Image)
    (drawing : Canvas unit) :
  compose browser st img = Some drawing ->
  keeps_stack drawing
  /\ keeps_stack paintCard
  /\ keeps_stack (paintCopy browser st)
  /\ keeps_stack (paintImage browser st img).
Proof.
  intros Hc.
  assert (Hcard : keeps_stack paintCard) by (unfold paintCard; auto 20 with canvas).
  assert (Hcopy : keeps_stack (paintCopy browser st))
    by (unfold paintCopy; auto 40 with canvas).
  assert (Himage : keeps_stack (paintImage browser st img))
    by (unfold paintImage; auto 20 with canvas).
  repeat split; try assumption.
  unfold compose, paintBackdrop in Hc.
  destruct (backgroundMode st).
  - injection Hc as <-. auto 20 with canvas.
  - injection Hc as <-. auto 20 with canvas.
  - destruct (lookup_scene (sceneKey st) sceneBackgrounds); [|discriminate Hc].
    injection Hc as <-. auto 20 with canvas.
Qed.

(** The uploaded page, from a context with one saved state. *)
Lemma export_balances_save_restore_witness :
  exists drawing,
    compose sampleBrowser uploadedState (mkImage "blob:photo" 2000 1000) = Some drawing
    /\ ctx_saved (snd (drawing (mkCtx "10px sans-serif" ["bold 12px serif"] [])))
       = ["bold 12px serif"].
Proof.
  eexists. split; [reflexivity|].
  apply (proj1 (export_balances_save_restore sampleBrowser uploadedState
                  (mkImage "blob:photo" 2000 1000) _ eq_refl)).
Defined.

(* ================================================================= *)
(** ** The copy *)

Lemma skipn_length_app {A : Type} (a b : list A) : skipn (List.length a) (a ++ b) = b.
Proof.
  induction a as [|x a IH]; [reflexivity | exact IH].
Qed.

Lemma emitted_bind {A B : Type} (P : Cmd -> Prop) (m : Canvas A) (k : A -> Canvas B)
    (c : Ctx) :
  issues P m -> (forall a, issues P (k a)) ->
  emitted (bind m k) c = emitted m c ++ emitted (k (fst (m c))) (snd (m c)).
Proof.
  intros Hm Hk.
  destruct (Hm c) as (l1 & E1 & _).
  destruct (Hk (fst (m c)) (snd (m c))) as (l2 & E2 & _).
  unfold emitted. rewrite bind_run, E2, E1.
  rewrite (skipn_length_app (ctx_log c ++ l1) l2), (skipn_length_app (ctx_log c) l1).
  rewrite <- app_assoc. apply skipn_length_app.
Qed.

Lemma lineTexts_app (a b : list Cmd) : lineTexts (a ++ b) = lineTexts a ++ lineTexts b.
Proof.
  apply flat_map_app.
Qed.

Lemma lineTexts_roundedRectPath (x y width height radius : jsnum) :
  lineTexts (roundedRectPath x y width height radius) = [].
Proof.
  reflexivity.
Qed.

(** The texts of a piece of canvas code: those of its parts, in order. *)
Lemma texts_bind {A B : Type} (m : Canvas A) (k : A -> Canvas B) (c : Ctx) :
  issues no_image m -> (forall a, issues no_image (k a)) ->
  lineTexts (emitted (bind m k) c)
  = lineTexts (emitted m c) ++ lineTexts (emitted (k (fst (m c))) (snd (m c))).
Proof.
  intros Hm Hk. now rewrite (emitted_bind no_image), lineTexts_app.
Qed.

Lemma emitted_run {A : Type} (m : Canvas A) (c : Ctx) (a : A) (cmds : list Cmd) :
  m c = (a, logged c cmds) -> lineTexts (emitted m c) = lineTexts cmds.
Proof.
  intros H. now rewrite (emitted_logged m c a cmds H).
Qed.

Lemma texts_wrapText (browser : Browser) (text : string) (x y maxWidth lineHeight : jsnum)
    (c : Ctx) :
  lineTexts (emitted (wrapText browser text x y maxWidth lineHeight) c)
  = wrapped_lines (exceeds browser (ctx_font c) maxWidth) text.
Proof.
  rewrite (emitted_logged _ _ _ _ (wrapText_run browser x maxWidth lineHeight text y c)).
  apply lineTexts_place_lines.
Qed.

Lemma emitted_emit (cmd : Cmd) (c : Ctx) : emitted (emit cmd) c = [cmd].
Proof. exact (skipn_length_app (ctx_log c) [cmd]). Qed.

Lemma emitted_setFont (f : string) (c : Ctx) : emitted (setFont f) c = [SetFont f].
Proof. exact (skipn_length_app (ctx_log c) [SetFont f]). Qed.

Lemma emitted_save (c : Ctx) : emitted save c = [Save].
Proof. exact (skipn_length_app (ctx_log c) [Save]). Qed.

Lemma emitted_restore (c : Ctx) : emitted restore c = [Restore].
Proof. exact (skipn_length_app (ctx_log c) [Restore]). Qed.

Lemma emitted_measureText (browser : Browser) (t : string) (c : Ctx) :
  emitted (measureText browser t) c = [].
Proof. unfold emitted, measureText. cbn [snd]. apply skipn_all. Qed.

Lemma emitted_ret {A : Type} (a : A) (c : Ctx) : emitted (ret a) c = [].
Proof. unfold emitted, ret. cbn [snd]. apply skipn_all. Qed.

Lemma emitted_drawRoundedRect (x y width height radius : jsnum) (c : Ctx) :
  emitted (drawRoundedRect x y width height radius) c
  = roundedRectPath x y width height radius.
Proof. exact (emitted_logged _ _ _ _ (drawRoundedRect_run x y width height radius c)). Qed.

(** Rewriting the commands of straight-line canvas code. *)
Ltac emitted_steps :=
  rewrite ?emitted_emit, ?emitted_setFont, ?emitted_save, ?emitted_restore,
    ?emitted_measureText, ?emitted_ret, ?emitted_drawRoundedRect.

Lemma truthy_false (s : string) : JS.truthy s = false -> s = EmptyString.
Proof.
  destruct s; [reflexivity | discriminate].
Qed.

Lemma font_after_emit (cmd : Cmd) (c : Ctx) : ctx_font (snd (emit cmd c)) = ctx_font c.
Proof. reflexivity. Qed.

Lemma font_after_setFont (f : string) (c : Ctx) : ctx_font (snd (setFont f c)) = f.
Proof. reflexivity. Qed.


Lemma measure_after_setFont (browser : Browser) (f t : string) (c : Ctx) :
  fst (measureText browser t (snd (setFont f c))) = text_width browser f t.
Proof. reflexivity. Qed.

Lemma max2_num (a b : Q) :
  exists m, JS.Math_max (Num a) (Num b) = Num m /\ a <= m /\ b <= m /\ (m = a \/ m = b).
Proof.
  unfold JS.Math_max, JS.max2, JS.gt. destruct (JS.Qltb a b) eqn:E.
  - apply Qltb_true in E. exists b. repeat split; auto using Qle_refl, Qlt_le_weak.
  - apply Qltb_false in E. exists a. repeat split; auto using Qle_refl.
Qed.



(* ================================================================= *)
(** ** File names *)

Lemma has_dot_cons (c : ascii) (s : string) :
  has_dot (String c s) = Ascii.eqb c "."%char || has_dot s.
Proof.
  reflexivity.
Qed.

Lemma has_dot_append (a b : string) : has_dot (a ++ "." ++ b) = true.
Proof.
  induction a as [|c a IH]; [reflexivity|].
  cbn [append]. rewrite has_dot_cons.
  change (a ++ String "." b)%string with (a ++ "." ++ b)%string.
  rewrite IH. apply orb_true_r.
Qed.

Lemma strip_extension_no_dot (name : string) :
  has_dot name = false -> strip_extension name = name.
Proof.
  induction name as [|c name IH]; [reflexivity|].
  rewrite has_dot_cons. intros H. apply orb_false_iff in H. destruct H as [Hc Hn].
  cbn [strip_extension]. rewrite Hc. cbn [andb]. now rewrite IH.
Qed.

(** X15.  The name of the design: the last extension of the file name (its
    last dot, when something follows it) is replaced by [-designed.png],
    earlier dots are kept; a name without a dot, or one that ends with a dot,
    is kept whole and gets [-designed.png] appended. *)
Theorem designedName_replaces_extension (base ext : string) :
  has_dot ext = false ->
  designedName (base ++ "." ++ ext)
  = (if JS.truthy ext then base ++ "-designed.png"
     else base ++ "." ++ "-designed.png")%string
  /\ designedName ext = (ext ++ "-designed.png")%string.
Proof.
  intros Hext. split.
  - unfold designedName. f_equal.
    induction base as [|c base IH].
    + cbn [append strip_extension]. rewrite Hext. cbn [Ascii.eqb].
      destruct ext; reflexivity.
    + cbn [append strip_extension].
      change (base ++ String "." ext)%string with (base ++ "." ++ ext)%string.
      rewrite has_dot_append. cbn [negb]. rewrite andb_false_r.
      destruct (JS.truthy ext); cbn [append] in *; now rewrite IH.
  - unfold designedName. now rewrite strip_extension_no_dot.
Qed.

(** [summer.sale.jpeg] becomes [summer.sale-designed.png]. *)
Lemma designedName_replaces_extension_witness :
  designedName "summer.sale.jpeg" = "summer.sale-designed.png".
Proof.
  apply (proj1 (designedName_replaces_extension "summer.sale" "jpeg" eq_refl)).
Defined.

Lemma truthy_append_r (a b : string) : JS.truthy b = true -> JS.truthy (a ++ b) = true.
Proof.
  destruct a; [trivial | reflexivity].
Qed.

Lemma designedName_truthy (name : string) : JS.truthy (designedName name) = true.
Proof.
  apply truthy_append_r. reflexivity.
Qed.

(* ================================================================= *)
(** ** The page over time *)

Lemma revokeObjectURL_only (url : string) : revokeObjectURL url [url] = [].
Proof.
  unfold revokeObjectURL. cbn. now rewrite String.eqb_refl.
Qed.

Lemma lookup_scene_nth (table : list (string * SceneConfig)) :
  NoDup (map fst table) ->
  forall button key sc,
    nth_error table button = Some (key, sc) -> lookup_scene key table = Some sc.
Proof.
  induction table as [|[k s] table IH]; intros Hnd button key sc Hn.
  - destruct button; discriminate Hn.
  - inversion Hnd as [|? ? Hnotin Hnd']; subst. cbn [lookup_scene].
    destruct button as [|button]; cbn [nth_error] in Hn.
    + injection Hn as -> ->. now rewrite String.eqb_refl.
    + destruct (String.eqb_spec k key) as [->|Hne]; [|now apply (IH Hnd' button)].
      exfalso. apply Hnotin. apply nth_error_In in Hn.
      now apply (in_map fst) in Hn.
Qed.

Lemma catalog_keys_distinct : NoDup (map fst sceneBackgrounds).
Proof.
  cbn. repeat constructor; cbn; intuition discriminate.
Qed.

Section Sessions.

Variable createObjectURL : File -> list string -> string.

(** Object URLs are never empty. *)
Hypothesis url_not_empty : forall f live, JS.truthy (createObjectURL f live) = true.


(** X17.  The download is always named after the page's [imageName], the
    fallback [product-shot.png] of line 324 never being needed: after any
    sequence of events [imageName] is not empty; it is [product-shot.png]
    as long as no image is shown and the designed name of a selected file
    afterwards. *)
Theorem download_name_is_image_name (events : list Event) :
  let st := page (after createObjectURL events initialSession) in
  downloadName st = imageName st
  /\ (imageSrc st = None -> imageName st = "product-shot.png")
  /\ (imageSrc st <> None ->
      exists f, In (fileChange (Some f)) events
                /\ imageName st = designedName (file_name f)).
Proof.
  cbv zeta.
  assert (Hall : forall events s (seen : list Event),
             ((imageSrc (page s) = None -> imageName (page s) = "product-shot.png")
              /\ (imageSrc (page s) <> None ->
                  exists f, In (fileChange (Some f)) seen
                            /\ imageName (page s) = designedName (file_name f))) ->
             let s' := after createObjectURL events s in
             (imageSrc (page s') = None -> imageName (page s') = "product-shot.png")
             /\ (imageSrc (page s') <> None ->
                 exists f, In (fileChange (Some f)) (seen ++ events)
                           /\ imageName (page s') = designedName (file_name f))).
  { clear events. induction events as [|e events IH]; intros s seen Hs.
    - cbn [after fold_left]. now rewrite app_nil_r.
    - cbn [after fold_left].
      replace (seen ++ e :: events) with ((seen ++ [e]) ++ events)
        by now rewrite <- app_assoc.
      apply IH. destruct Hs as [Hnone Hsome].
      assert (Hkeep : (imageSrc (page s) = None -> imageName (page s) = "product-shot.png")
                      /\ (imageSrc (page s) <> None ->
                          exists f, In (fileChange (Some f)) (seen ++ [e])
                                    /\ imageName (page s) = designedName (file_name f))).
      { split; [exact Hnone|]. intros H. destruct (Hsome H) as (f & Hin & Hname).
        exists f. split; [apply in_or_app; now left | exact Hname]. }
      destruct e; cbn [handle onPage page]; try exact Hkeep.
      + unfold handleFileChange. destruct file as [f|]; [|exact Hkeep].
        destruct (String.prefix "image/" (file_type f)); cbn [negb]; [|exact Hkeep].
        cbn [page setImageName setImageSrc imageSrc imageName].
        split; [discriminate|]. intros _. exists f.
        split; [apply in_or_app; right; now left | reflexivity].
      + destruct (nth_error sceneBackgrounds button) as [[key sc]|];
          cbn [onPage page]; exact Hkeep. }
  destruct (Hall events initialSession []) as [Hnone Hsome].
  { split; [reflexivity|]. intros H. now contradiction H. }
  cbn [app] in Hsome. split; [|now split].
  unfold downloadName.
  destruct (imageSrc (page (after createObjectURL events initialSession))) eqn:E.
  - destruct Hsome as (f & _ & ->); [discriminate|]. now rewrite designedName_truthy.
  - now rewrite (Hnone eq_refl).
Qed.

(** X18.  Through the form the scene key is always a key of the catalog
    (the theme buttons are the catalog's entries, and each selects the preset
    it shows): after any sequence of events the preview has a background and
    the export a backdrop, so the export never fails on an unknown scene. *)
Theorem scene_key_stays_known (browser : Browser) (events : list Event) :
  let st := page (after createObjectURL events initialSession) in
  backdrop_known st
  /\ (exists sc, lookup_scene (sceneKey st) sceneBackgrounds = Some sc)
  /\ (exists value, previewBackground browser st = Some value)
  /\ (exists backdrop, paintBackdrop st = Some backdrop)
  /\ (forall button key sc,
        nth_error sceneBackgrounds button = Some (key, sc) ->
        lookup_scene
          (sceneKey (page (handle createObjectURL (clickTheme button)
                             (after createObjectURL events initialSession))))
          sceneBackgrounds = Some sc).
Proof.
  cbv zeta.
  assert (Hall : forall events s,
             (exists sc, lookup_scene (sceneKey (page s)) sceneBackgrounds = Some sc) ->
             exists sc,
               lookup_scene (sceneKey (page (after createObjectURL events s)))
                 sceneBackgrounds = Some sc).
  { clear events. induction events as [|e events IH]; intros s Hs; [exact Hs|].
    cbn [after fold_left]. apply IH.
    destruct e; cbn [handle onPage page]; try exact Hs.
    - unfold handleFileChange. destruct file as [f|]; [|exact Hs].
      destruct (String.prefix "image/" (file_type f)); cbn [negb]; exact Hs.
    - destruct (nth_error sceneBackgrounds button) as [[key sc]|] eqn:E;
        cbn [onPage page setSceneKey sceneKey]; [|exact Hs].
      exists sc. exact (lookup_scene_nth _ catalog_keys_distinct _ _ _ E). }
  destruct (Hall events initialSession) as (sc & Hsc); [now eexists|].
  assert (Hk : backdrop_known (page (after createObjectURL events initialSession)))
    by (intros _; now exists sc).
  split; [exact Hk|]. split; [now exists sc|]. split; [|split].
  - destruct (previewBackground_shows browser _ Hk) as (value & Hv & _). now exists value.
  - exact (paintBackdrop_known _ Hk).
  - intros button key sc' E. cbn [handle]. rewrite E.
    cbn [onPage page setSceneKey sceneKey].
    exact (lookup_scene_nth _ catalog_keys_distinct _ _ _ E).
Qed.

(** X19.  An image, once accepted, stays: after an image file was selected,
    whatever events follow, the page has an image source that is not empty;
    the Download button is enabled unless an export is running, and neither
    [handleDownload] nor [handleCopyShare] asks for an upload. *)
Theorem accepted_image_stays (browser : Browser) (clipboard_ok : bool)
    (earlier later : list Event) (f : File) :
  String.prefix "image/" (file_type f) = true ->
  let st := page (after createObjectURL (earlier ++ fileChange (Some f) :: later)
                    initialSession) in
  noImage (imageSrc st) = false
  /\ downloadDisabled false st = false
  /\ hd_error (handleDownload browser st) = Some (setDownloadError None)
  /\ hd_error (handleCopyShare clipboard_ok st) = Some clipboardWrite.
Proof.
  intros Himage. cbv zeta.
  assert (Hkeep : forall events s,
             noImage (imageSrc (page s)) = false ->
             noImage (imageSrc (page (after createObjectURL events s))) = false).
  { induction events as [|e events IH]; intros s Hs; [exact Hs|].
    cbn [after fold_left]. apply IH.
    destruct e; cbn [handle onPage page]; try exact Hs.
    - unfold handleFileChange. destruct file as [g|]; [|exact Hs].
      destruct (String.prefix "image/" (file_type g)); cbn [negb]; [|exact Hs].
      cbn [page setImageName setImageSrc imageSrc noImage].
      now rewrite url_not_empty.
    - destruct (nth_error sceneBackgrounds button) as [[key sc]|];
        cbn [onPage page]; exact Hs. }
  assert (Hn : noImage (imageSrc (page (after createObjectURL
                 (earlier ++ fileChange (Some f) :: later) initialSession))) = false).
  { unfold after. rewrite fold_left_app. cbn [fold_left]. apply Hkeep.
    cbn [handle]. unfold handleFileChange. rewrite Himage. cbn [negb].
    cbn [page setImageName setImageSrc imageSrc noImage].
    now rewrite url_not_empty. }
  split; [exact Hn|]. split; [unfold downloadDisabled; now rewrite Hn|]. split.
  - unfold handleDownload. rewrite Hn.
    now destruct (imageSrc _).
  - unfold handleCopyShare. now rewrite Hn.
Qed.

End Sessions.


(** A photo is selected, then the headline is edited. *)
Lemma accepted_image_stays_witness :
  hd_error (handleDownload sampleBrowser
              (page (after numberedURL
                       ([] ++ fileChange (Some (mkFile "one.png" "image/png"))
                           :: [inputHeadline "Summer"])
                       initialSession)))
  = Some (setDownloadError None).
Proof.
  apply (accepted_image_stays numberedURL (fun _ _ => eq_refl) sampleBrowser true
           [] [inputHeadline "Summer"] (mkFile "one.png" "image/png") eq_refl).
Defined.
